(** * protoc-gen-ketty: the ketty plugin of the Go protocol buffer compiler

    A shallow embedding of [ketty/ketty.go] and the properties of its
    descriptor-to-code mapping: dispatch slots of the methods of a service,
    client signatures and bodies, resolution of the three ketty message
    options and the methods synthesised from them.

    The plugin writes through [generator.Generator.P]; the generator, the
    [proto] and [strings] packages are libraries the plugin links against,
    so what the plugin needs of them is an interface ([External]) and the
    development is parametric in it.  A reference instance
    ([protocGenGo]) is given at the end of the definitions and is used to
    evaluate the model on concrete descriptors. *)

From Stdlib Require Import ZArith String Ascii List Lia DecimalString.
From stdpp Require Import base tactics option list strings gmap.

Local Open Scope Z_scope.

(** ** Go values *)

(** A run-time panic, by the statement that raises it. *)
Inductive panic : Type :=
  | InterfaceConversion   (* a type assertion on a value of another dynamic type *)
  | NilDereference        (* dereference of a nil pointer *)
  | SliceBounds.          (* s[:n] with n > len(s) *)

Inductive result (A : Type) : Type :=
  | Ok (a : A)
  | Panic (p : panic).
Arguments Ok {A} a.
Arguments Panic {A} p.

#[global] Instance result_ret : MRet result := @Ok.
#[global] Instance result_bind : MBind result := fun A B f r =>
  match r with
  | Ok a => f a
  | Panic p => Panic p
  end.

(** Go's [int] on a 64-bit platform: increments wrap around. *)
Definition maxInt : Z := 2 ^ 63 - 1.
Definition wrapInt (z : Z) : Z := (z + 2 ^ 63) mod 2 ^ 64 - 2 ^ 63.

(** [%d] of [fmt.Sprintf] at an [int]. *)
Definition itoa (z : Z) : string := NilZero.string_of_int (Z.to_int z).

(** The double quote character, as a one-character string. *)
Definition dq : string := String (ascii_of_nat 34) EmptyString.

(** The dynamic values an [interface{}] returned by [proto.GetExtension]
    can hold: the nil interface, a pointer to bool, a pointer to string (either
    possibly nil), or the raw bytes of a field whose descriptor is not type
    complete. *)
Inductive iface : Type :=
  | INil
  | IBoolPtr (p : option bool)
  | IStringPtr (p : option string)
  | IBytes (b : string).

Definition error : Type := string.

(** The single-value type assertion of [x] to pointer-to-bool: it panics
    unless that is the dynamic type of [x]. *)
Definition assertBoolPtr (x : iface) : result (option bool) :=
  match x with
  | IBoolPtr p => Ok p
  | _ => Panic InterfaceConversion
  end.

(** The single-value type assertion of [x] to pointer-to-string. *)
Definition assertStringPtr (x : iface) : result (option string) :=
  match x with
  | IStringPtr p => Ok p
  | _ => Panic InterfaceConversion
  end.

(** Dereference of a pointer. *)
Definition deref {A : Type} (p : option A) : result A :=
  match p with
  | Some a => Ok a
  | None => Panic NilDereference
  end.

(** ** Descriptors *)

(** Modelled from the spec: the package [protoc-gen-ketty/include]
    (kettyProto) is not part of the sources at hand; it declares the three
    extensions of [MessageOptions]: [bool useKettyHttpExtend],
    [string transport] and [string marshal]. *)
Inductive ExtensionDesc : Type :=
  | E_UseKettyHttpExtend
  | E_Transport
  | E_Marshal.

#[global] Instance ExtensionDesc_eq_dec : EqDecision ExtensionDesc.
Proof. solve_decision. Defined.

(** The option set of a message is untyped extension storage that the
    plugin only reads through [proto.GetExtension]; it is modelled by what
    that call reports for each descriptor: a value and an error. *)
Record MessageOptions : Type := {
  stored : ExtensionDesc -> iface * option error
}.

(** The Go types of the values an option set can hold. *)
Inductive goType : Type :=
  | TBoolPtr
  | TStringPtr
  | TBytes.

Definition hasType (T : goType) (v : iface) : bool :=
  match T, v with
  | TBoolPtr, IBoolPtr _ => true
  | TStringPtr, IStringPtr _ => true
  | TBytes, IBytes _ => true
  | _, _ => false
  end.

(** Modelled from the spec: the type of the field each of the three
    extensions declares in the package [protoc-gen-ketty/include], which is
    not part of the sources at hand: bool for useKettyHttpExtend, string
    for transport and marshal (pointers, as proto2 fields are). *)
Definition ExtensionType (e : ExtensionDesc) : goType :=
  match e with
  | E_UseKettyHttpExtend => TBoolPtr
  | E_Transport => TStringPtr
  | E_Marshal => TStringPtr
  end.

(** What the option set of a message holds: for each extension the value
    stored under it, if any, of whatever type. *)
Definition Extensions : Type := ExtensionDesc -> option iface.

(** Modelled from the spec: [proto.GetExtension] belongs to golang/protobuf
    and is not part of the sources at hand. The fetch succeeds, with the
    stored value, when a value is stored at the type the descriptor
    declares; it fails (reports an error) when the extension is not set and
    when the type of the stored value does not match. *)
Definition fetched (held : Extensions) : MessageOptions := {|
  stored := fun e =>
    match held e with
    | None => (INil, Some "proto: missing extension")
    | Some v =>
        if hasType (ExtensionType e) v then (v, None)
        else (INil, Some "proto: bad extension value type")
    end
|}.

(** The value a held extension leaves in a bool field and in a string
    field. *)
Definition heldBool (v : option iface) : bool :=
  match v with
  | Some (IBoolPtr (Some b)) => b
  | _ => false
  end.

Definition heldString (v : option iface) : string :=
  match v with
  | Some (IStringPtr (Some s)) => s
  | _ => EmptyString
  end.

Module pb.

Record MethodDescriptorProto : Type := {
  Method_Name : option string;
  InputType : option string;
  OutputType : option string;
  ClientStreaming : option bool;
  ServerStreaming : option bool
}.

Record ServiceDescriptorProto : Type := {
  Service_Name : option string;
  Method : list MethodDescriptorProto
}.

Record DescriptorProto : Type := {
  Name : option string;
  Options : option MessageOptions
}.

Record FileDescriptorProto : Type := {
  Package : option string;
  Service : list ServiceDescriptorProto;
  MessageType : list DescriptorProto
}.

End pb.
Export pb.

(** The generated getters: the zero value when the field is not set. *)
Class HasName (A : Type) : Type := GetName : A -> string.
#[global] Instance method_HasName : HasName MethodDescriptorProto :=
  fun m => default EmptyString (Method_Name m).
#[global] Instance service_HasName : HasName ServiceDescriptorProto :=
  fun s => default EmptyString (Service_Name s).

Definition GetInputType (m : MethodDescriptorProto) : string :=
  default EmptyString (InputType m).
Definition GetOutputType (m : MethodDescriptorProto) : string :=
  default EmptyString (OutputType m).
Definition GetClientStreaming (m : MethodDescriptorProto) : bool :=
  default false (ClientStreaming m).
Definition GetServerStreaming (m : MethodDescriptorProto) : bool :=
  default false (ServerStreaming m).
Definition GetPackage (f : FileDescriptorProto) : string :=
  default EmptyString (Package f).

(** ** The libraries the plugin links against *)

Class External : Type := {
  (** [generator.Object] and the generator's naming functions. *)
  Object : Type;
  CamelCase : string -> string;
  ObjectNamed : string -> Object;
  TypeName : Object -> string;
  (** [generator.RegisterUniquePackageName(pkg, nil)]. *)
  RegisterUniquePackageName : string -> string;
  (** [g.gen.ImportPrefix]. *)
  ImportPrefix : string;
  (** [path.Join] at two arguments, [strconv.Quote], [strings.ToLower]. *)
  path_Join : string -> string -> string;
  strconv_Quote : string -> string;
  strings_ToLower : string -> string;
  (** What [proto.GetExtension] reports on a nil pointer to MessageOptions. *)
  GetExtension_nil : ExtensionDesc -> iface * option error
}.

(** ** The state of a generation pass *)

(** The generator's output buffer (one entry per line written by [P]), the
    type names recorded by [RecordTypeUse], what [println] wrote to the
    standard error, and the two package-level variables of ketty.go. *)
Record state : Type := mkState {
  output : list string;
  typeUses : list string;
  stderr : list string;
  contextPkg : string;
  kettyPkg : string
}.

Definition M (A : Type) : Type := state -> result (A * state).

#[global] Instance M_ret : MRet M := fun A a s => Ok (a, s).
#[global] Instance M_bind : MBind M := fun A B f m s =>
  match m s with
  | Ok (a, s') => f a s'
  | Panic p => Panic p
  end.

Definition lift {A : Type} (r : result A) : M A := fun s =>
  match r with
  | Ok a => Ok (a, s)
  | Panic p => Panic p
  end.

Definition when (b : bool) (m : M unit) : M unit :=
  if b then m else mret tt.

(** An argument of [P]: the plugin passes strings and, for
    [message.Name], a pointer to string. *)
Inductive arg : Type :=
  | AString (s : string)
  | APString (p : option string).

Fixpoint printArgs (args : list arg) : result string :=
  match args with
  | [] => Ok EmptyString
  | AString s :: rest => t ← printArgs rest; Ok (s +:+ t)
  | APString p :: rest => s ← deref p; t ← printArgs rest; Ok (s +:+ t)
  end.

(** [g.P(args...)]: the arguments, printed one after the other, make one
    line of the output. *)
Definition P (args : list arg) : M unit := fun s =>
  match printArgs args with
  | Ok line =>
      Ok (tt, mkState (output s ++ [line]) (typeUses s) (stderr s)
                      (contextPkg s) (kettyPkg s))
  | Panic p => Panic p
  end.

Definition println (msg : string) : M unit := fun s =>
  Ok (tt, mkState (output s) (typeUses s) (stderr s ++ [msg])
                  (contextPkg s) (kettyPkg s)).

Definition gets {A : Type} (f : state -> A) : M A := fun s => Ok (f s, s).

(** Go's slice expressions on a string, [s[:n]] and [s[n:]]: a bound above
    the length panics. *)
Definition sliceTo (s : string) (n : nat) : result string :=
  if (n <=? String.length s)%nat then Ok (substring 0 n s)
  else Panic SliceBounds.

Definition sliceFrom (s : string) (n : nat) : result string :=
  if (n <=? String.length s)%nat
  then Ok (substring n (String.length s - n) s)
  else Panic SliceBounds.

(** The state a computation returns ([s] itself when it panics). *)
Definition exec {A : Type} (m : M A) (s : state) : state :=
  match m s with
  | Ok (_, s') => s'
  | Panic _ => s
  end.

Section Ketty.

Context `{External}.

(** ** ketty.go *)

Definition kettyPkgPath : string := "github.com/yyzybb537/ketty".

(** [Init]: sets the two package-level names. *)
Definition Init : M unit := fun s =>
  Ok (tt, mkState (output s) (typeUses s) (stderr s)
                  "context" (RegisterUniquePackageName "ketty")).

(** [objectNamed]: records the use of the type, then looks it up. *)
Definition objectNamed (name : string) : M Object := fun s =>
  Ok (ObjectNamed name,
      mkState (output s) (typeUses s ++ [name]) (stderr s)
              (contextPkg s) (kettyPkg s)).

Definition typeName (str : string) : M string :=
  o ← objectNamed str; mret (TypeName o).

Record kettyOptions : Type := {
  isUseKettyHttpExtend : bool;
  transport : string;
  marshal : string
}.

Definition GetExtension (pb : option MessageOptions) (extension : ExtensionDesc)
  : iface * option error :=
  match pb with
  | Some o => stored o extension
  | None => GetExtension_nil extension
  end.

Definition getKettyOptions (message : DescriptorProto) : result kettyOptions :=
  let opts := {| isUseKettyHttpExtend := false;
                 transport := EmptyString; marshal := EmptyString |} in
  let '(iisUseKettyHttpExtend, err) :=
    GetExtension (Options message) E_UseKettyHttpExtend in
  opts ←
    match err with
    | None =>
        p ← assertBoolPtr iisUseKettyHttpExtend;
        match p with
        | Some _ =>
            q ← assertBoolPtr iisUseKettyHttpExtend;
            b ← deref q;
            Ok {| isUseKettyHttpExtend := b;
                  transport := transport opts; marshal := marshal opts |}
        | None => Ok opts
        end
    | Some _ => Ok opts
    end;
  let '(iTransport, err) := GetExtension (Options message) E_Transport in
  opts ←
    match err with
    | None =>
        p ← assertStringPtr iTransport;
        match p with
        | Some _ =>
            q ← assertStringPtr iTransport;
            t ← deref q;
            Ok {| isUseKettyHttpExtend := isUseKettyHttpExtend opts;
                  transport := t; marshal := marshal opts |}
        | None => Ok opts
        end
    | Some _ => Ok opts
    end;
  let '(iMarshal, err) := GetExtension (Options message) E_Marshal in
  opts ←
    match err with
    | None =>
        p ← assertStringPtr iMarshal;
        match p with
        | Some _ =>
            q ← assertStringPtr iMarshal;
            m ← deref q;
            Ok {| isUseKettyHttpExtend := isUseKettyHttpExtend opts;
                  transport := transport opts; marshal := m |}
        | None => Ok opts
        end
    | Some _ => Ok opts
    end;
  Ok opts.

Definition generateOptionMethods (message : DescriptorProto) (opts : kettyOptions)
  : M unit :=
  when (isUseKettyHttpExtend opts)
    (P [AString "func (*"; APString (Name message);
        AString ") KettyHttpExtendMessage() {}"];;
     P []);;
  when (bool_decide (marshal opts <> EmptyString))
    (P [AString "func (*"; APString (Name message);
        AString ") KettyMarshal() string {"];;
     P [AString ("return " +:+ dq); AString (marshal opts); AString dq];;
     P [AString "}"];;
     P []);;
  when (bool_decide (transport opts <> EmptyString))
    (P [AString "func (*"; APString (Name message);
        AString ") KettyTransport() string {"];;
     P [AString ("return " +:+ dq); AString (transport opts); AString dq];;
     P [AString "}"];;
     P []).

(** [GenerateImports] *)
Definition GenerateImports (file : FileDescriptorProto) : M unit :=
  if (length (Service file) =? 0)%nat then mret tt
  else
    P [AString "import ("];;
    k ← gets kettyPkg;
    P [AString k; AString " ";
       AString (strconv_Quote (path_Join ImportPrefix kettyPkgPath))];;
    P [AString ")"];;
    P [].

(** [reservedClientName]: no name is reserved. *)
Definition reservedClientName : gmap string bool := ∅.

(** [unexport]: the operands are evaluated from left to right. *)
Definition unexport (s : string) : result string :=
  a ← sliceTo s 1;
  let l := strings_ToLower a in
  b ← sliceFrom s 1;
  Ok (l +:+ b).

(** [generateClientSignature] *)
Definition generateClientSignature (servName : string)
    (method : MethodDescriptorProto) : M string :=
  let origMethName := GetName method in
  let methName := CamelCase origMethName in
  let methName :=
    if default false (reservedClientName !! methName)
    then methName +:+ "_" else methName in
  inType ← typeName (GetInputType method);
  let reqArg := ", in *" +:+ inType in
  let reqArg := if GetClientStreaming method then EmptyString else reqArg in
  outType ← typeName (GetOutputType method);
  let respName := "*" +:+ outType in
  let respName :=
    if GetServerStreaming method || GetClientStreaming method
    then servName +:+ "_" +:+ CamelCase origMethName +:+ "Client"
    else respName in
  c ← gets contextPkg;
  mret (methName +:+ "(ctx " +:+ c +:+ ".Context" +:+ reqArg +:+ ") ("
          +:+ respName +:+ ", error)").

(** [generateClientMethod]; [fullServName], [serviceDescVar] and
    [descExpr] are not used by the body. *)
Definition generateClientMethod (servName fullServName serviceDescVar : string)
    (method : MethodDescriptorProto) (descExpr : string) : M unit :=
  let methName := CamelCase (GetName method) in
  outType ← typeName (GetOutputType method);
  sig ← generateClientSignature servName method;
  P [AString "func (this *Ketty"; AString servName; AString "Client) ";
     AString sig; AString "{"];;
  P [AString "out := new("; AString outType; AString ")"];;
  P [AString "err := ";
     AString ("this.client.Invoke(ctx, " +:+ servName +:+ "Handle, " +:+ dq
        +:+ methName +:+ dq +:+ ", in, out)")];;
  P [AString "if err != nil { return nil, err }"];;
  P [AString "return out, nil"];;
  P [AString "}"];;
  P [].

(** One turn of the loop over the methods of a service: the descriptor
    expression of the method and the two counters after it. *)
Definition nextDescExpr (serviceDescVar : string)
    (method : MethodDescriptorProto) (methodIndex streamIndex : Z)
  : string * Z * Z :=
  if negb (GetServerStreaming method) && negb (GetClientStreaming method)
  then ("&" +:+ serviceDescVar +:+ ".Methods[" +:+ itoa methodIndex +:+ "]",
        wrapInt (methodIndex + 1), streamIndex)
  else ("&" +:+ serviceDescVar +:+ ".Streams[" +:+ itoa streamIndex +:+ "]",
        methodIndex, wrapInt (streamIndex + 1)).

(** The loop [for _, method := range service.Method] of
    [generateService], for any callee [body] in the place of
    [generateClientMethod], so that the arguments of the call can be
    observed. *)
Fixpoint rangeMethods (body : MethodDescriptorProto -> string -> M unit)
    (serviceDescVar : string) (methods : list MethodDescriptorProto)
    (methodIndex streamIndex : Z) : M unit :=
  match methods with
  | [] => mret tt
  | method :: rest =>
      let '(descExpr, methodIndex', streamIndex') :=
        nextDescExpr serviceDescVar method methodIndex streamIndex in
      body method descExpr;;
      rangeMethods body serviceDescVar rest methodIndex' streamIndex'
  end.

(** The body of [generateService], for any callee [body] in the place of
    [generateClientMethod], so that the arguments of the call can be
    observed. *)
Definition generateServiceWith
    (body : string -> string -> string -> MethodDescriptorProto -> string -> M unit)
    (file : FileDescriptorProto)
    (service : ServiceDescriptorProto) (index : Z) : M unit :=
  let origServName := GetName service in
  let fullServName := origServName in
  let fullServName :=
    let pkg := GetPackage file in
    if bool_decide (pkg <> EmptyString)
    then pkg +:+ "." +:+ fullServName else fullServName in
  let servName := CamelCase origServName in
  let handleT := servName +:+ "HandleT" in
  P [AString ("type " +:+ handleT +:+ " struct {")];;
  P [AString "desc *grpc.ServiceDesc"];;
  P [AString "}"];;
  P [];;
  P [AString ("func (h *" +:+ handleT +:+ ") Implement() interface{} {")];;
  P [AString "return h.desc"];;
  P [AString "}"];;
  P [];;
  P [AString ("func (h *" +:+ handleT +:+ ") ServiceName() string {")];;
  P [AString "return h.desc.ServiceName"];;
  P [AString "}"];;
  P [];;
  P [AString ("var " +:+ servName +:+ "Handle = &" +:+ handleT +:+ "{ desc : &_"
        +:+ servName +:+ "_serviceDesc }")];;
  P [];;
  k ← gets kettyPkg;
  P [AString "type Ketty"; AString servName; AString "Client struct {"];;
  P [AString "client "; AString k; AString ".Client"];;
  P [AString "}"];;
  P [];;
  P [AString "func NewKetty"; AString servName; AString "Client (client "; AString k;
     AString ".Client) "; AString "*Ketty"; AString servName; AString "Client {"];;
  P [AString "return &Ketty"; AString servName; AString "Client{client}"];;
  P [AString "}"];;
  P [];;
  let serviceDescVar := "_" +:+ servName +:+ "_serviceDesc" in
  rangeMethods (body servName fullServName serviceDescVar)
               serviceDescVar (Method service) 0 0.

(** [generateService] *)
Definition generateService (file : FileDescriptorProto)
    (service : ServiceDescriptorProto) (index : Z) : M unit :=
  generateServiceWith generateClientMethod file service index.

(** The loop [for i, service := range file.FileDescriptorProto.Service]. *)
Fixpoint generateServices (file : FileDescriptorProto)
    (services : list ServiceDescriptorProto) (i : Z) : M unit :=
  match services with
  | [] => mret tt
  | service :: rest =>
      generateService file service i;;
      generateServices file rest (i + 1)
  end.

(** The loop [for _, message := range file.FileDescriptorProto.MessageType]. *)
Fixpoint generateMessages (messages : list DescriptorProto) : M unit :=
  match messages with
  | [] => mret tt
  | message :: rest =>
      match Options message with
      | None => generateMessages rest
      | Some _ =>
          opts ← lift (getKettyOptions message);
          generateOptionMethods message opts;;
          generateMessages rest
      end
  end.

(** [Generate] *)
Definition Generate (file : FileDescriptorProto) : M unit :=
  if (length (Service file) =? 0)%nat then mret tt
  else
    println "ketty.Generate";;
    P [AString "// Reference imports to suppress errors if they are not otherwise used."];;
    k ← gets kettyPkg;
    P [AString "var _ "; AString k; AString ".Dummy"];;
    P [];;
    P [AString "// This is a compile-time assertion to ensure that this generated file"];;
    P [AString "// is compatible with the ketty package it is being compiled against."];;
    P [];;
    generateServices file (Service file) 0;;
    generateMessages (MessageType file).

End Ketty.

(** ** A reference instance of the libraries

    The functions of golang/protobuf and of the Go standard library that the
    plugin calls, restricted to what protoc hands to a plugin: ASCII
    identifiers and messages of the file's own package. *)

Definition isASCIILower (c : ascii) : bool :=
  (97 <=? nat_of_ascii c)%nat && (nat_of_ascii c <=? 122)%nat.
Definition isASCIIUpper (c : ascii) : bool :=
  (65 <=? nat_of_ascii c)%nat && (nat_of_ascii c <=? 90)%nat.
Definition isASCIIDigit (c : ascii) : bool :=
  (48 <=? nat_of_ascii c)%nat && (nat_of_ascii c <=? 57)%nat.
Definition toUpper (c : ascii) : ascii :=
  if isASCIILower c then ascii_of_nat (nat_of_ascii c - 32) else c.
Definition toLower (c : ascii) : ascii :=
  if isASCIIUpper c then ascii_of_nat (nat_of_ascii c + 32) else c.

Definition startsLower (s : string) : bool :=
  match s with
  | String c _ => isASCIILower c
  | EmptyString => false
  end.

(** The main loop of [generator.CamelCase]; [inWord] holds while the
    lower-case letters that follow the head of a word are copied. *)
Fixpoint camelWords (inWord : bool) (s : string) : string :=
  match s with
  | EmptyString => EmptyString
  | String c rest =>
      if inWord && isASCIILower c then String c (camelWords true rest)
      else if Ascii.eqb c "_" && startsLower rest then camelWords false rest
      else if isASCIIDigit c then String c (camelWords false rest)
      else String (toUpper c) (camelWords true rest)
  end.

Definition camelCase (s : string) : string :=
  match s with
  | EmptyString => EmptyString
  | String c rest =>
      if Ascii.eqb c "_" then String "X" (camelWords false rest)
      else camelWords false s
  end.

(** The text after the last dot of a fully qualified type name. *)
Fixpoint baseName (s : string) : string :=
  match s with
  | EmptyString => EmptyString
  | String c rest =>
      if existsb (Ascii.eqb ".") (list_ascii_of_string rest) then baseName rest
      else if Ascii.eqb c "." then rest else s
  end.

Fixpoint mapString (f : ascii -> ascii) (s : string) : string :=
  match s with
  | EmptyString => EmptyString
  | String c rest => String (f c) (mapString f rest)
  end.

#[global] Instance protocGenGo : External := {|
  Object := string;
  CamelCase := camelCase;
  ObjectNamed := fun name => name;
  TypeName := fun o => camelCase (baseName o);
  RegisterUniquePackageName := fun pkg => pkg;
  ImportPrefix := EmptyString;
  path_Join := fun a b =>
    if bool_decide (a = EmptyString) then b else a +:+ "/" +:+ b;
  strconv_Quote := fun s => dq +:+ s +:+ dq;
  strings_ToLower := mapString toLower;
  GetExtension_nil := fun _ => (INil, Some "proto: nil message is not extendable")
|}.

(** The state a fresh generator is in before [Init], and after it. *)
Definition state0 : state := mkState [] [] [] EmptyString EmptyString.
Definition initialised : state := exec Init state0.

(** ** Example descriptors *)

(** service Echo { rpc Say(EchoRequest) returns (EchoResponse); } in
    package demo. *)
Definition Say : MethodDescriptorProto := {|
  Method_Name := Some "Say";
  InputType := Some ".demo.EchoRequest";
  OutputType := Some ".demo.EchoResponse";
  ClientStreaming := None;
  ServerStreaming := None
|}.

Definition Echo : ServiceDescriptorProto := {|
  Service_Name := Some "Echo";
  Method := [Say]
|}.

Definition demo : FileDescriptorProto := {|
  Package := Some "demo";
  Service := [Echo];
  MessageType := [ {| Name := Some "EchoRequest"; Options := None |};
                   {| Name := Some "EchoResponse"; Options := None |} ]
|}.

(** service Chat with a unary, a server streaming, a unary and a client
    streaming method, declared in that order. *)
Definition rpc (name : string) (client server : bool) : MethodDescriptorProto := {|
  Method_Name := Some name;
  InputType := Some ".demo.Msg";
  OutputType := Some ".demo.Msg";
  ClientStreaming := Some client;
  ServerStreaming := Some server
|}.

Definition Chat : ServiceDescriptorProto := {|
  Service_Name := Some "chat";
  Method := [rpc "Send" false false; rpc "Listen" false true;
             rpc "Ack" false false; rpc "Upload" true false]
|}.

(** A message that sets only [transport = "http"]. *)
Definition httpOnly : MessageOptions := {|
  stored := fun e =>
    match e with
    | E_Transport => (IStringPtr (Some "http"), None)
    | _ => (INil, Some "proto: missing extension")
    end
|}.

Definition Ping : DescriptorProto := {|
  Name := Some "Ping";
  Options := Some httpOnly
|}.

(** What the resolver returns on [Ping]. *)
Definition httpOptions : kettyOptions := {|
  isUseKettyHttpExtend := false;
  transport := "http";
  marshal := EmptyString
|}.

(** A message whose option set holds a string where the descriptor of
    [useKettyHttpExtend] is asked for, handed back without an error. *)
Definition mistyped : MessageOptions := {|
  stored := fun e =>
    match e with
    | E_UseKettyHttpExtend => (IStringPtr (Some "true"), None)
    | _ => (INil, Some "proto: missing extension")
    end
|}.

Definition Pong : DescriptorProto := {|
  Name := Some "Pong";
  Options := Some mistyped
|}.

(** A message whose option set holds a string under useKettyHttpExtend,
    the string http under transport and a bool under marshal. *)
Definition mixed : Extensions := fun e =>
  match e with
  | E_UseKettyHttpExtend => Some (IStringPtr (Some "true"))
  | E_Transport => Some (IStringPtr (Some "http"))
  | E_Marshal => Some (IBoolPtr (Some true))
  end.

Definition Pang : DescriptorProto := {|
  Name := Some "Pang";
  Options := Some (fetched mixed)
|}.

(** A file that declares messages and no service. *)
Definition messagesOnly : FileDescriptorProto := {|
  Package := Some "demo";
  Service := [];
  MessageType := [Ping]
|}.

(** ** What a computation adds to the state *)

(** [extend s o u e]: [s] after [o] was written to the output, [u] was
    recorded as used and [e] was printed to the standard error. *)
Definition extend (s : state) (o u e : list string) : state :=
  mkState (output s ++ o) (typeUses s ++ u) (stderr s ++ e)
          (contextPkg s) (kettyPkg s).

(** [emits m s a o u e]: from [s], [m] returns [a] and adds [o], [u] and
    [e] to the output, the used types and the standard error. *)
Definition emits {A : Type} (m : M A) (s : state) (a : A)
    (o u e : list string) : Prop :=
  m s = Ok (a, extend s o u e).

(** A computation is uniform when, the two package-level names being
    fixed, it either panics from every state or returns one value and adds
    the same text to every state. *)
Definition uniform {A : Type} (m : M A) : Prop :=
  forall c k,
    (exists p, forall s, contextPkg s = c -> kettyPkg s = k -> m s = Panic p) \/
    (exists a o u e, forall s, contextPkg s = c -> kettyPkg s = k ->
                               m s = Ok (a, extend s o u e)).

(** The value a fetch leaves in a bool field and in a string field. *)
Definition boolField (r : iface * option error) : bool :=
  match r with
  | (IBoolPtr (Some b), None) => b
  | _ => false
  end.

Definition stringField (r : iface * option error) : string :=
  match r with
  | (IStringPtr (Some s), None) => s
  | _ => EmptyString
  end.

(** A fetch answers at the asserted type when it reports an error or
    returns a pointer of that type. *)
Definition answersBool (r : iface * option error) : Prop :=
  match r with
  | (_, Some _) => True
  | (IBoolPtr _, None) => True
  | _ => False
  end.

Definition answersString (r : iface * option error) : Prop :=
  match r with
  | (_, Some _) => True
  | (IStringPtr _, None) => True
  | _ => False
  end.

Definition isUnary (method : MethodDescriptorProto) : bool :=
  negb (GetServerStreaming method) && negb (GetClientStreaming method).

Section Slots.

Context `{External}.

(** The value of [descExpr] at each turn of the loop of
    [generateService]. *)
Fixpoint descExprs (serviceDescVar : string)
    (methods : list MethodDescriptorProto) (methodIndex streamIndex : Z)
  : list string :=
  match methods with
  | [] => []
  | method :: rest =>
      let '(descExpr, methodIndex', streamIndex') :=
        nextDescExpr serviceDescVar method methodIndex streamIndex in
      descExpr :: descExprs serviceDescVar rest methodIndex' streamIndex'
  end.

(** The text [generateClientSignature] returns for [method] when
    [contextPkg] holds [c]. *)
Definition signatureText (c servName : string)
    (method : MethodDescriptorProto) : string :=
  CamelCase (GetName method) +:+ "(ctx " +:+ c +:+ ".Context"
    +:+ (if GetClientStreaming method then EmptyString
         else ", in *" +:+ TypeName (ObjectNamed (GetInputType method)))
    +:+ ") ("
    +:+ (if GetServerStreaming method || GetClientStreaming method
         then servName +:+ "_" +:+ CamelCase (GetName method) +:+ "Client"
         else "*" +:+ TypeName (ObjectNamed (GetOutputType method)))
    +:+ ", error)".

(** The slot expressions [&v.Methods[i]] and [&v.Streams[j]]. *)
Definition methodSlot (serviceDescVar : string) (i : Z) : string :=
  "&" +:+ serviceDescVar +:+ ".Methods[" +:+ itoa i +:+ "]".
Definition streamSlot (serviceDescVar : string) (j : Z) : string :=
  "&" +:+ serviceDescVar +:+ ".Streams[" +:+ itoa j +:+ "]".

(** The unary methods and the streaming methods of a list, in the order
    of the list. *)
Definition unary (methods : list MethodDescriptorProto) :=
  List.filter isUnary methods.
Definition streaming (methods : list MethodDescriptorProto) :=
  List.filter (fun method => negb (isUnary method)) methods.

(** Calling [body] on each pair of a list, in order. *)
Fixpoint forPairs (body : MethodDescriptorProto -> string -> M unit)
    (pairs : list (MethodDescriptorProto * string)) : M unit :=
  match pairs with
  | [] => mret tt
  | (method, descExpr) :: rest => body method descExpr;; forPairs body rest
  end.

End Slots.

Section Texts.

Context `{External}.

(** ** The text of a pass

    What each part of the pass writes, as a function of the descriptors and
    of the two package names. *)

(** The lines [Generate] writes before the services, [k] being
    [kettyPkg]. *)
Definition preambleText (k : string) : list string :=
  ["// Reference imports to suppress errors if they are not otherwise used.";
   "var _ " +:+ k +:+ ".Dummy";
   EmptyString;
   "// This is a compile-time assertion to ensure that this generated file";
   "// is compatible with the ketty package it is being compiled against.";
   EmptyString].

(** The lines [generateService] writes before the methods. *)
Definition serviceHeaderText (k servName : string) : list string :=
  ["type " +:+ servName +:+ "HandleT struct {";
   "desc *grpc.ServiceDesc";
   "}";
   EmptyString;
   "func (h *" +:+ servName +:+ "HandleT) Implement() interface{} {";
   "return h.desc";
   "}";
   EmptyString;
   "func (h *" +:+ servName +:+ "HandleT) ServiceName() string {";
   "return h.desc.ServiceName";
   "}";
   EmptyString;
   "var " +:+ servName +:+ "Handle = &" +:+ servName +:+ "HandleT{ desc : &_"
     +:+ servName +:+ "_serviceDesc }";
   EmptyString;
   "type Ketty" +:+ servName +:+ "Client struct {";
   "client " +:+ k +:+ ".Client";
   "}";
   EmptyString;
   "func NewKetty" +:+ servName +:+ "Client (client " +:+ k
     +:+ ".Client) *Ketty" +:+ servName +:+ "Client {";
   "return &Ketty" +:+ servName +:+ "Client{client}";
   "}";
   EmptyString].

(** The lines [generateClientMethod] writes, [c] being [contextPkg]. *)
Definition clientMethodText (c servName : string)
    (method : MethodDescriptorProto) : list string :=
  ["func (this *Ketty" +:+ servName +:+ "Client) "
     +:+ signatureText c servName method +:+ "{";
   "out := new(" +:+ TypeName (ObjectNamed (GetOutputType method)) +:+ ")";
   "err := this.client.Invoke(ctx, " +:+ servName +:+ "Handle, " +:+ dq
     +:+ CamelCase (GetName method) +:+ dq +:+ ", in, out)";
   "if err != nil { return nil, err }";
   "return out, nil";
   "}";
   EmptyString].

(** The type names [generateClientMethod] records as used. *)
Definition methodUses (method : MethodDescriptorProto) : list string :=
  [GetOutputType method; GetInputType method; GetOutputType method].

Definition serviceText (c k : string) (service : ServiceDescriptorProto)
  : list string :=
  serviceHeaderText k (CamelCase (GetName service))
    ++ flat_map (clientMethodText c (CamelCase (GetName service)))
                (Method service).

Definition serviceUses (service : ServiceDescriptorProto) : list string :=
  flat_map methodUses (Method service).

(** The record the three fetches of an option set resolve to. *)
Definition resolved (o : MessageOptions) : kettyOptions := {|
  isUseKettyHttpExtend := boolField (stored o E_UseKettyHttpExtend);
  transport := stringField (stored o E_Transport);
  marshal := stringField (stored o E_Marshal)
|}.

(** Every fetch of an option set answers at the asserted type. *)
Definition answers (o : MessageOptions) : Prop :=
  answersBool (stored o E_UseKettyHttpExtend) /\
  answersString (stored o E_Transport) /\
  answersString (stored o E_Marshal).

(** The lines [generateOptionMethods] writes for a message named [n]. *)
Definition optionMethodsText (n : string) (opts : kettyOptions) : list string :=
  (if isUseKettyHttpExtend opts
   then ["func (*" +:+ n +:+ ") KettyHttpExtendMessage() {}"; EmptyString]
   else []) ++
  (if bool_decide (marshal opts <> EmptyString)
   then ["func (*" +:+ n +:+ ") KettyMarshal() string {";
         "return " +:+ dq +:+ marshal opts +:+ dq;
         "}"; EmptyString]
   else []) ++
  (if bool_decide (transport opts <> EmptyString)
   then ["func (*" +:+ n +:+ ") KettyTransport() string {";
         "return " +:+ dq +:+ transport opts +:+ dq;
         "}"; EmptyString]
   else []).

Definition messageText (message : DescriptorProto) : list string :=
  match Options message, Name message with
  | Some o, Some n => optionMethodsText n (resolved o)
  | _, _ => []
  end.

(** A message the pass can handle: it has no option set, or it is named
    and every fetch of its option set answers at the asserted type. *)
Definition resolvable (message : DescriptorProto) : Prop :=
  match Options message with
  | None => True
  | Some o => answers o /\ is_Some (Name message)
  end.

(** A message that asks for nothing: it has no option set, or every fetch
    answers and resolves to the zero value. *)
Definition silent (message : DescriptorProto) : Prop :=
  match Options message with
  | None => True
  | Some o =>
      answers o /\
      boolField (stored o E_UseKettyHttpExtend) = false /\
      stringField (stored o E_Transport) = EmptyString /\
      stringField (stored o E_Marshal) = EmptyString
  end.

End Texts.

(** A message with an option set in which no ketty extension is set, and
    without a name. *)
Definition unset : MessageOptions := {|
  stored := fun _ => (INil, Some "proto: missing extension")
|}.

Definition anonymous : DescriptorProto := {|
  Name := None;
  Options := Some unset
|}.

(** The file [demo] with the message [Ping] added, and with [Pong] added
    after it. *)
Definition demoPing : FileDescriptorProto := {|
  Package := Some "demo";
  Service := [Echo];
  MessageType := MessageType demo ++ [Ping]
|}.

Definition demoPong : FileDescriptorProto := {|
  Package := Some "demo";
  Service := [Echo];
  MessageType := MessageType demo ++ [Ping; Pong; anonymous]
|}.

(** * Properties *)

(** ** Basic facts *)

Lemma extend_nil (s : state) : extend s [] [] [] = s.
Proof. destruct s; unfold extend; simpl. by rewrite !app_nil_r. Qed.

Lemma extend_extend (s : state) (o u e o' u' e' : list string) :
  extend (extend s o u e) o' u' e' = extend s (o ++ o') (u ++ u') (e ++ e').
Proof. unfold extend; simpl. by rewrite !app_assoc. Qed.

Lemma wrapInt_small (z : Z) : - 2 ^ 63 <= z < 2 ^ 63 -> wrapInt z = z.
Proof.
  intros Hz. unfold wrapInt.
  rewrite Z.mod_small; lia.
Qed.

Lemma substring_whole (s : string) : substring 0 (String.length s) s = s.
Proof. induction s as [|c s IH]; simpl; [done | by rewrite IH]. Qed.

Lemma P_run (args : list arg) (line : string) (s : state) :
  printArgs args = Ok line -> P args s = Ok (tt, extend s [line] [] []).
Proof.
  intros Hargs. unfold P, extend. rewrite Hargs. by rewrite !app_nil_r.
Qed.

Lemma bind_run {A B : Type} (m : M A) (f : A -> M B) (s s' : state) (a : A) :
  m s = Ok (a, s') -> (m ≫= f) s = f a s'.
Proof. intros Hm. unfold mbind, M_bind. by rewrite Hm. Qed.

Lemma bind_panic {A B : Type} (m : M A) (f : A -> M B) (s : state) (p : panic) :
  m s = Panic p -> (m ≫= f) s = Panic p.
Proof. intros Hm. unfold mbind, M_bind. by rewrite Hm. Qed.

Lemma append_empty_r (s : string) : s +:+ EmptyString = s.
Proof.
  induction s as [|c s IH]; [done |].
  change (String c (s +:+ EmptyString) = String c s). by rewrite IH.
Qed.

Lemma append_assoc (a b c : string) : (a +:+ b) +:+ c = a +:+ (b +:+ c).
Proof.
  induction a as [|x a IH]; [done |].
  change (String x ((a +:+ b) +:+ c) = String x (a +:+ (b +:+ c))).
  by rewrite IH.
Qed.

(** Runs a straight-line computation on a state given by its fields. *)
Ltac run_M :=
  unfold when, mbind, M_bind, mret, M_ret, P, println, gets, lift, extend;
  simpl;
  rewrite <- ?app_assoc, ?app_nil_r, ?append_empty_r; simpl.

Section Resolver.

Context `{External}.

(** ** Option resolution *)

(** A value handed back without an error at a type other than the
    asserted one makes the resolver panic, whatever the other two
    extensions hold. *)
Lemma getKettyOptions_mismatch (message : DescriptorProto)
    (o : MessageOptions) (x : iface) :
  Options message = Some o ->
  stored o E_UseKettyHttpExtend = (x, None) ->
  (forall p, x <> IBoolPtr p) ->
  getKettyOptions message = Panic InterfaceConversion.
Proof.
  intros Ho Hx Hne. unfold getKettyOptions, GetExtension.
  rewrite Ho, Hx. destruct x; try reflexivity.
  by destruct (Hne p).
Qed.

(** On a message with an option set, when each of the three fetches
    reports an error or returns a pointer of the type the resolver asserts,
    getKettyOptions returns a record; a field whose fetch reported an
    error or returned a nil pointer keeps its zero value, any other field
    holds the value pointed to. *)
Lemma getKettyOptions_answered (message : DescriptorProto)
    (o : MessageOptions) :
  Options message = Some o ->
  answersBool (stored o E_UseKettyHttpExtend) ->
  answersString (stored o E_Transport) ->
  answersString (stored o E_Marshal) ->
  getKettyOptions message =
    Ok {| isUseKettyHttpExtend := boolField (stored o E_UseKettyHttpExtend);
          transport := stringField (stored o E_Transport);
          marshal := stringField (stored o E_Marshal) |}.
Proof.
  intros Ho Hb Ht Hm. unfold getKettyOptions, GetExtension. rewrite Ho.
  destruct (stored o E_UseKettyHttpExtend) as [[|[b|]|[x|]|x] [e|]];
    simpl in Hb; try contradiction;
  destruct (stored o E_Transport) as [[|[b'|]|[t|]|t] [e'|]];
    simpl in Ht; try contradiction;
  destruct (stored o E_Marshal) as [[|[b''|]|[m|]|m] [e''|]];
    simpl in Hm; try contradiction; reflexivity.
Qed.

(** C2: on every message whose option set is not nil, whatever values,
    of whatever types, are stored under the three ketty extensions,
    getKettyOptions returns a record and does not panic. A field whose
    extension is stored under a type that does not match the expected one
    (pointer to bool for useKettyHttpExtend, pointer to string for
    transport and marshal) takes its zero value, as does a field whose
    extension is not set or holds a nil pointer; a field stored at the
    expected type takes the value stored. *)
Theorem getKettyOptions_total (message : DescriptorProto) (held : Extensions) :
  Options message = Some (fetched held) ->
  exists opts,
    getKettyOptions message = Ok opts /\
    opts = {| isUseKettyHttpExtend := heldBool (held E_UseKettyHttpExtend);
              transport := heldString (held E_Transport);
              marshal := heldString (held E_Marshal) |} /\
    (forall v, held E_UseKettyHttpExtend = Some v ->
               hasType (ExtensionType E_UseKettyHttpExtend) v = false ->
               isUseKettyHttpExtend opts = false) /\
    (forall v, held E_Transport = Some v ->
               hasType (ExtensionType E_Transport) v = false ->
               transport opts = EmptyString) /\
    (forall v, held E_Marshal = Some v ->
               hasType (ExtensionType E_Marshal) v = false ->
               marshal opts = EmptyString).
Proof.
  intros Ho. eexists. split; [| split; [reflexivity |]].
  - unfold getKettyOptions, GetExtension. rewrite Ho.
    unfold fetched. cbn [stored ExtensionType].
    destruct (held E_UseKettyHttpExtend) as [[|[b|]|[x|]|x]|];
    destruct (held E_Transport) as [[|[b'|]|[t|]|t]|];
    destruct (held E_Marshal) as [[|[b''|]|[m|]|m]|]; reflexivity.
  - cbn [isUseKettyHttpExtend transport marshal]. repeat split.
    + intros v Hv Ht. rewrite Hv. by destruct v.
    + intros v Hv Ht. rewrite Hv. by destruct v.
    + intros v Hv Ht. rewrite Hv. by destruct v.
Qed.

(** ** Option methods *)

(** C3: for a named message, generateOptionMethods writes the marker
    method exactly when isUseKettyHttpExtend holds, then the marshal
    accessor exactly when marshal is not empty, then the transport
    accessor exactly when transport is not empty, each followed by an
    empty line, and nothing else; with the three fields at their zero
    values the state is left as it was, whether the message is named or
    not. *)
Theorem generateOptionMethods_emits (message : DescriptorProto)
    (opts : kettyOptions) (s : state) :
  (forall n, Name message = Some n ->
    generateOptionMethods message opts s =
      Ok (tt, extend s
        ((if isUseKettyHttpExtend opts
          then ["func (*" +:+ n +:+ ") KettyHttpExtendMessage() {}";
                EmptyString]
          else []) ++
         (if bool_decide (marshal opts <> EmptyString)
          then ["func (*" +:+ n +:+ ") KettyMarshal() string {";
                "return " +:+ dq +:+ marshal opts +:+ dq;
                "}"; EmptyString]
          else []) ++
         (if bool_decide (transport opts <> EmptyString)
          then ["func (*" +:+ n +:+ ") KettyTransport() string {";
                "return " +:+ dq +:+ transport opts +:+ dq;
                "}"; EmptyString]
          else [])) [] [])) /\
  (isUseKettyHttpExtend opts = false -> marshal opts = EmptyString ->
   transport opts = EmptyString ->
    generateOptionMethods message opts s = Ok (tt, s)).
Proof.
  split.
  - intros n Hn. unfold generateOptionMethods. rewrite Hn.
    destruct opts as [b t m], s as [o u e c k]; simpl.
    destruct b, (bool_decide (m <> EmptyString)),
      (bool_decide (t <> EmptyString)); run_M; reflexivity.
  - intros Hb Hm Ht. unfold generateOptionMethods.
    rewrite Hb, Hm, Ht. reflexivity.
Qed.

(** ** Files without a service *)

(** C9: on a file that declares no service, Generate and GenerateImports
    return at once and leave the state as it was: nothing is written,
    whatever options the messages of the file carry. *)
Theorem Generate_no_service (file : FileDescriptorProto) (s : state) :
  Service file = [] ->
  Generate file s = Ok (tt, s) /\ GenerateImports file s = Ok (tt, s).
Proof.
  intros Hs. unfold Generate, GenerateImports. rewrite Hs. by split.
Qed.

(** ** Naming *)

(** C10: unexport panics on the empty string, where the slice [s[:1]] is
    out of bounds; on a string that is not empty it returns the lower
    case of the first byte, as strings.ToLower gives it, followed by the
    rest unchanged. *)
Theorem unexport_partial :
  unexport EmptyString = Panic SliceBounds /\
  forall (c : ascii) (rest : string),
    unexport (String c rest) =
      Ok (strings_ToLower (String c EmptyString) +:+ rest).
Proof.
  split; [reflexivity |].
  intros c rest. unfold unexport, sliceTo, sliceFrom. simpl.
  rewrite Nat.sub_0_r, substring_whole.
  by destruct rest.
Qed.

End Resolver.

Section Methods.

Context `{External}.

(** ** Client signatures *)

Lemma reservedClientName_none (name : string) :
  default false (reservedClientName !! name) = false.
Proof. unfold reservedClientName. by rewrite lookup_empty. Qed.

Lemma typeName_run (str : string) (s : state) :
  typeName str s = Ok (TypeName (ObjectNamed str), extend s [] [str] []).
Proof.
  destruct s. unfold typeName, objectNamed. run_M. reflexivity.
Qed.

Lemma generateClientSignature_run (servName : string)
    (method : MethodDescriptorProto) (s : state) :
  generateClientSignature servName method s =
    Ok (signatureText (contextPkg s) servName method,
        extend s [] [GetInputType method; GetOutputType method] []).
Proof.
  unfold generateClientSignature, signatureText.
  rewrite reservedClientName_none.
  rewrite (bind_run _ _ _ _ _ (typeName_run _ _)).
  rewrite (bind_run _ _ _ _ _ (typeName_run _ _)).
  rewrite extend_extend. destruct s. run_M. reflexivity.
Qed.

(** C4: in the signature generated for a method of a service, the result
    type is CamelCase(service name) _ CamelCase(method name) Client when
    the method is server streaming or client streaming, and a star
    followed by the resolved name of the output type when it is neither. *)
Theorem generateClientSignature_result (service : ServiceDescriptorProto)
    (method : MethodDescriptorProto) (s : state) :
  exists s',
    generateClientSignature (CamelCase (GetName service)) method s =
      Ok (CamelCase (GetName method) +:+ "(ctx " +:+ contextPkg s +:+ ".Context"
            +:+ (if GetClientStreaming method then EmptyString
                 else ", in *" +:+ TypeName (ObjectNamed (GetInputType method)))
            +:+ ") ("
            +:+ (if GetServerStreaming method || GetClientStreaming method
                 then CamelCase (GetName service) +:+ "_"
                        +:+ CamelCase (GetName method) +:+ "Client"
                 else "*" +:+ TypeName (ObjectNamed (GetOutputType method)))
            +:+ ", error)", s').
Proof. eexists. apply generateClientSignature_run. Qed.

(** C5: once Init has set contextPkg, the signature generated for a
    method has [ctx context.Context] as its first parameter, followed by
    the request parameter [in *InputType] when the method is not client
    streaming and by nothing when it is. *)
Theorem generateClientSignature_params (servName : string)
    (method : MethodDescriptorProto) (s : state) :
  contextPkg s = "context" ->
  exists s',
    generateClientSignature servName method s =
      Ok (CamelCase (GetName method) +:+ "(ctx context.Context"
            +:+ (if GetClientStreaming method then EmptyString
                 else ", in *" +:+ TypeName (ObjectNamed (GetInputType method)))
            +:+ ") ("
            +:+ (if GetServerStreaming method || GetClientStreaming method
                 then servName +:+ "_" +:+ CamelCase (GetName method) +:+ "Client"
                 else "*" +:+ TypeName (ObjectNamed (GetOutputType method)))
            +:+ ", error)", s').
Proof.
  intros Hc. eexists. rewrite generateClientSignature_run.
  unfold signatureText. rewrite Hc. reflexivity.
Qed.

Lemma Init_contextPkg (s s' : state) :
  Init s = Ok (tt, s') -> contextPkg s' = "context".
Proof. unfold Init. intros [= <-]. reflexivity. Qed.

(** ** Client methods *)

Lemma generateClientMethod_run (servName fullServName serviceDescVar : string)
    (method : MethodDescriptorProto) (descExpr : string) (s : state) :
  generateClientMethod servName fullServName serviceDescVar method descExpr s =
    Ok (tt, extend s
      ["func (this *Ketty" +:+ servName +:+ "Client) "
         +:+ signatureText (contextPkg s) servName method +:+ "{";
       "out := new(" +:+ TypeName (ObjectNamed (GetOutputType method)) +:+ ")";
       "err := this.client.Invoke(ctx, " +:+ servName +:+ "Handle, " +:+ dq
         +:+ CamelCase (GetName method) +:+ dq +:+ ", in, out)";
       "if err != nil { return nil, err }";
       "return out, nil";
       "}";
       EmptyString]
      [GetOutputType method; GetInputType method; GetOutputType method] []).
Proof.
  unfold generateClientMethod.
  rewrite (bind_run _ _ _ _ _ (typeName_run _ _)).
  rewrite (bind_run _ _ _ _ _ (generateClientSignature_run _ _ _)).
  rewrite extend_extend. destruct s. run_M. reflexivity.
Qed.

(** C8: generateClientMethod writes the same body whatever the streaming
    flags of the method are: the lines after the first allocate [out],
    pass [in] and [out] to this.client.Invoke and return; for a client
    streaming method the signature on the first line has no [in]
    parameter, and the body passes [in] all the same. *)
Theorem generateClientMethod_body (servName fullServName serviceDescVar : string)
    (method : MethodDescriptorProto) (descExpr : string) (s : state) :
  exists sig,
    generateClientMethod servName fullServName serviceDescVar method descExpr s =
      Ok (tt, extend s
        ["func (this *Ketty" +:+ servName +:+ "Client) " +:+ sig +:+ "{";
         "out := new(" +:+ TypeName (ObjectNamed (GetOutputType method)) +:+ ")";
         "err := this.client.Invoke(ctx, " +:+ servName +:+ "Handle, " +:+ dq
           +:+ CamelCase (GetName method) +:+ dq +:+ ", in, out)";
         "if err != nil { return nil, err }";
         "return out, nil";
         "}";
         EmptyString]
        [GetOutputType method; GetInputType method; GetOutputType method] []) /\
    (GetClientStreaming method = true ->
     sig = CamelCase (GetName method) +:+ "(ctx " +:+ contextPkg s
             +:+ ".Context) (" +:+ servName +:+ "_"
             +:+ CamelCase (GetName method) +:+ "Client, error)").
Proof.
  exists (signatureText (contextPkg s) servName method). split.
  - apply generateClientMethod_run.
  - intros Hc. unfold signatureText.
    rewrite Hc, orb_true_r, !append_assoc. reflexivity.
Qed.

End Methods.

Section Dispatch.

Context `{External}.

(** ** Dispatch slots *)

Lemma nextDescExpr_unary (v : string) (method : MethodDescriptorProto)
    (mi si : Z) :
  nextDescExpr v method mi si =
    if isUnary method then (methodSlot v mi, wrapInt (mi + 1), si)
    else (streamSlot v si, mi, wrapInt (si + 1)).
Proof. reflexivity. Qed.

(** The loop calls its body on the methods paired with [descExprs]. *)
Lemma rangeMethods_forPairs (body : MethodDescriptorProto -> string -> M unit)
    (v : string) (methods : list MethodDescriptorProto) :
  forall mi si,
    rangeMethods body v methods mi si =
      forPairs body (zip methods (descExprs v methods mi si)).
Proof.
  induction methods as [|method rest IH]; intros mi si; [done |].
  simpl. rewrite nextDescExpr_unary.
  destruct (isUnary method); simpl; by rewrite IH.
Qed.

Lemma filter_take_lt {A : Type} (p : A -> bool) (l : list A) (k : nat) (x : A) :
  l !! k = Some x -> p x = true ->
  (length (List.filter p (take k l)) < length (List.filter p l))%nat.
Proof.
  intros Hk Hp. rewrite <- (take_drop_middle l k x Hk) at 2.
  rewrite List.filter_app, length_app. simpl. rewrite Hp. simpl. lia.
Qed.

Lemma descExprs_lookup (v : string) (methods : list MethodDescriptorProto) :
  forall (mi si : Z) (k : nat) (method : MethodDescriptorProto),
    0 <= mi -> 0 <= si ->
    mi + si + Z.of_nat (length methods) <= maxInt ->
    methods !! k = Some method ->
    descExprs v methods mi si !! k =
      Some (if isUnary method
            then methodSlot v (mi + Z.of_nat (length (unary (take k methods))))
            else streamSlot v (si + Z.of_nat (length (streaming (take k methods))))).
Proof.
  unfold maxInt.
  induction methods as [|m rest IH]; intros mi si k method Hmi Hsi Hb Hk;
    [done |].
  rewrite length_cons in Hb.
  destruct k as [|k]; simpl in Hk.
  - injection Hk as ->. simpl. rewrite nextDescExpr_unary.
    destruct (isUnary method); simpl; by rewrite Z.add_0_r.
  - simpl descExprs. rewrite nextDescExpr_unary.
    unfold unary, streaming. simpl take. simpl List.filter.
    destruct (isUnary m) eqn:Hu; simpl negb; cbv iota; simpl lookup.
    + rewrite wrapInt_small by lia.
      rewrite (IH (mi + 1) si k method) by (done || lia).
      unfold unary. rewrite length_cons.
      destruct (isUnary method); try reflexivity; do 2 f_equal; lia.
    + rewrite wrapInt_small by lia.
      rewrite (IH mi (si + 1) k method) by (done || lia).
      unfold streaming. rewrite length_cons.
      destruct (isUnary method); try reflexivity; do 2 f_equal; lia.
Qed.

Lemma unary_slots (v : string) (methods : list MethodDescriptorProto) :
  forall mi si : Z,
    0 <= mi -> 0 <= si ->
    mi + si + Z.of_nat (length methods) <= maxInt ->
    List.map snd (List.filter (fun p => isUnary (fst p))
                    (zip methods (descExprs v methods mi si))) =
      List.map (fun i => methodSlot v (mi + Z.of_nat i))
               (seq 0 (length (unary methods))).
Proof.
  unfold maxInt.
  induction methods as [|m rest IH]; intros mi si Hmi Hsi Hb; [done |].
  rewrite length_cons in Hb.
  simpl descExprs. rewrite nextDescExpr_unary. unfold unary. simpl.
  destruct (isUnary m) eqn:Hu; simpl; rewrite ?Hu; simpl.
  - rewrite wrapInt_small by lia. rewrite IH by lia.
    rewrite Z.add_0_r. f_equal.
    rewrite <- List.seq_shift, List.map_map.
    apply List.map_ext. intros i. f_equal. lia.
  - rewrite wrapInt_small by lia. by rewrite IH by lia.
Qed.

Lemma streaming_slots (v : string) (methods : list MethodDescriptorProto) :
  forall mi si : Z,
    0 <= mi -> 0 <= si ->
    mi + si + Z.of_nat (length methods) <= maxInt ->
    List.map snd (List.filter (fun p => negb (isUnary (fst p)))
                    (zip methods (descExprs v methods mi si))) =
      List.map (fun j => streamSlot v (si + Z.of_nat j))
               (seq 0 (length (streaming methods))).
Proof.
  unfold maxInt.
  induction methods as [|m rest IH]; intros mi si Hmi Hsi Hb; [done |].
  rewrite length_cons in Hb.
  simpl descExprs. rewrite nextDescExpr_unary. unfold streaming. simpl.
  destruct (isUnary m) eqn:Hu; simpl; rewrite ?Hu; simpl.
  - rewrite wrapInt_small by lia. by rewrite IH by lia.
  - rewrite wrapInt_small by lia. rewrite IH by lia.
    rewrite Z.add_0_r. f_equal.
    rewrite <- List.seq_shift, List.map_map.
    apply List.map_ext. intros j. f_equal. lia.
Qed.

Lemma descExprs_length (v : string) (methods : list MethodDescriptorProto) :
  forall mi si, length (descExprs v methods mi si) = length methods.
Proof.
  induction methods as [|method rest IH]; intros mi si; [done |].
  simpl. rewrite nextDescExpr_unary.
  destruct (isUnary method); simpl; by rewrite IH.
Qed.

End Dispatch.

(** ** Running a sequence of calls *)

Lemma emits_bind {A B : Type} (m : M A) (f : A -> M B) (s : state)
    (a : A) (b : B) (o u e o' u' e' : list string) :
  emits m s a o u e ->
  emits (f a) (extend s o u e) b o' u' e' ->
  emits (m ≫= f) s b (o ++ o') (u ++ u') (e ++ e').
Proof.
  unfold emits. intros Hm Hf.
  by rewrite (bind_run _ _ _ _ _ Hm), Hf, extend_extend.
Qed.

Lemma emits_ret {A : Type} (a : A) (s : state) : emits (mret a) s a [] [] [].
Proof. unfold emits. by rewrite extend_nil. Qed.

Lemma emits_gets {A : Type} (g : state -> A) (s : state) :
  emits (gets g) s (g s) [] [] [].
Proof. unfold emits, gets. by rewrite extend_nil. Qed.

Lemma emits_P (args : list arg) (line : string) (s : state) :
  printArgs args = Ok line -> emits (P args) s tt [line] [] [].
Proof. apply P_run. Qed.

Lemma emits_println (msg : string) (s : state) :
  emits (println msg) s tt [] [] [msg].
Proof. unfold emits, println, extend. by rewrite !app_nil_r. Qed.

Lemma emits_eq {A : Type} (m : M A) (s : state) (a : A)
    (o u e o' u' e' : list string) :
  emits m s a o u e -> o = o' -> u = u' -> e = e' ->
  m s = Ok (a, extend s o' u' e').
Proof. by intros Hm <- <- <-. Qed.

(** Runs a call to [P], [gets], [println] or [mret]. *)
Ltac emit_prim :=
  lazymatch goal with
  | |- emits (gets _) _ _ _ _ _ => apply emits_gets
  | |- emits (mret _) _ _ _ _ _ => apply emits_ret
  | |- emits (println _) _ _ _ _ _ => apply emits_println
  | |- emits (P _) _ _ _ _ _ =>
      apply emits_P; cbn [printArgs deref mbind result_bind]; reflexivity
  end.

(** Runs the call at the head of a sequence. *)
Ltac emit :=
  lazymatch goal with
  | |- emits (mbind _ _) _ _ _ _ _ => eapply emits_bind; [emit_prim | cbv beta]
  | |- _ => emit_prim
  end.

Lemma bind_emits {A B : Type} (m : M A) (f : A -> M B) (s : state) (a : A)
    (o u e : list string) :
  emits m s a o u e -> (m ≫= f) s = f a (extend s o u e).
Proof. apply bind_run. Qed.

(** Runs the call at the head of a sequence that is applied to a state. *)
Ltac run_head :=
  erewrite bind_emits; [| emit_prim]; cbv beta; rewrite ?extend_extend.

Section Services.

Context `{External}.

(** ** Services *)

(** C6: for a service named Echo whose only method is the unary method
    Say, with input type resolved to EchoRequest and output type to
    EchoResponse (names that CamelCase leaves as they are), and once
    Init has set contextPkg, generateService writes exactly: the type
    EchoHandleT with its two methods, the variable EchoHandle built from
    &_Echo_serviceDesc, the type KettyEchoClient, the constructor
    NewKettyEchoClient, and the method Say with the parameters
    [ctx context.Context, in *EchoRequest] and the results
    [*EchoResponse, error], whose body allocates out, calls this.client.Invoke with ctx,
    EchoHandle, the quoted key Say, in and out, returns nil and the
    error when there is one and out and nil otherwise. *)
Theorem generateService_Echo (file : FileDescriptorProto)
    (service : ServiceDescriptorProto) (method : MethodDescriptorProto)
    (index : Z) (s : state) :
  GetName service = "Echo" ->
  Method service = [method] ->
  GetName method = "Say" ->
  GetClientStreaming method = false ->
  GetServerStreaming method = false ->
  CamelCase "Echo" = "Echo" ->
  CamelCase "Say" = "Say" ->
  TypeName (ObjectNamed (GetInputType method)) = "EchoRequest" ->
  TypeName (ObjectNamed (GetOutputType method)) = "EchoResponse" ->
  contextPkg s = "context" ->
  generateService file service index s =
    Ok (tt, extend s
      ["type EchoHandleT struct {";
       "desc *grpc.ServiceDesc";
       "}";
       EmptyString;
       "func (h *EchoHandleT) Implement() interface{} {";
       "return h.desc";
       "}";
       EmptyString;
       "func (h *EchoHandleT) ServiceName() string {";
       "return h.desc.ServiceName";
       "}";
       EmptyString;
       "var EchoHandle = &EchoHandleT{ desc : &_Echo_serviceDesc }";
       EmptyString;
       "type KettyEchoClient struct {";
       "client " +:+ kettyPkg s +:+ ".Client";
       "}";
       EmptyString;
       "func NewKettyEchoClient (client " +:+ kettyPkg s
         +:+ ".Client) *KettyEchoClient {";
       "return &KettyEchoClient{client}";
       "}";
       EmptyString;
       "func (this *KettyEchoClient) Say(ctx context.Context, in *EchoRequest) (*EchoResponse, error){";
       "out := new(EchoResponse)";
       "err := this.client.Invoke(ctx, EchoHandle, " +:+ dq +:+ "Say" +:+ dq
         +:+ ", in, out)";
       "if err != nil { return nil, err }";
       "return out, nil";
       "}";
       EmptyString]
      [GetOutputType method; GetInputType method; GetOutputType method] []).
Proof.
  intros Hserv Hmeth Hname Hcs Hss HEcho HSay Hin Hout Hctx.
  unfold generateService, generateServiceWith. rewrite Hserv, Hmeth, HEcho.
  eapply emits_eq.
  - do 23 emit.
    cbn [rangeMethods]. rewrite nextDescExpr_unary.
    unfold isUnary. rewrite Hcs, Hss. cbn [negb andb].
    eapply emits_bind; [apply generateClientMethod_run | emit].
  - cbn [app extend kettyPkg contextPkg]. unfold signatureText.
    rewrite Hname, Hcs, Hss, HSay, Hin, Hout, Hctx.
    cbn [orb]. rewrite ?append_empty_r, !append_assoc. reflexivity.
  - reflexivity.
  - reflexivity.
Qed.

End Services.

Section ServiceSlots.

Context `{External}.

(** ** The slots generateService hands to its methods *)

(** generateService writes the header of the service and then calls its
    callee, in declaration order, on each method paired with its
    descriptor expression, with the CamelCase name of the service, its
    qualified name and the name of its descriptor variable. *)
Lemma generateServiceWith_forPairs
    (body : string -> string -> string -> MethodDescriptorProto -> string -> M unit)
    (file : FileDescriptorProto) (service : ServiceDescriptorProto)
    (index : Z) (s : state) :
  generateServiceWith body file service index s =
    forPairs
      (body (CamelCase (GetName service))
            (if bool_decide (GetPackage file <> EmptyString)
             then GetPackage file +:+ "." +:+ GetName service
             else GetName service)
            ("_" +:+ CamelCase (GetName service) +:+ "_serviceDesc"))
      (zip (Method service)
           (descExprs ("_" +:+ CamelCase (GetName service) +:+ "_serviceDesc")
                      (Method service) 0 0))
      (extend s (serviceHeaderText (kettyPkg s) (CamelCase (GetName service)))
              [] []).
Proof.
  unfold generateServiceWith. do 23 run_head.
  rewrite rangeMethods_forPairs. unfold serviceHeaderText.
  cbn [app extend kettyPkg contextPkg].
  rewrite ?append_empty_r, !append_assoc. reflexivity.
Qed.

(** C1: generateService, on a service of at most maxInt methods (as the
    length of a Go slice is), writes the header of the service and then
    calls generateClientMethod (or whatever callee stands in its place) on
    each method, in declaration order, with a descriptor expression such
    that: a unary method gets [&_ServName_serviceDesc.Methods[i]], [i]
    being the number of unary methods declared before it, and a streaming
    method gets [&_ServName_serviceDesc.Streams[j]], [j] being the number
    of streaming methods declared before it; so the unary methods get the
    indices 0..U-1 and the streaming methods the indices 0..S-1, each in
    declaration order, whatever the interleaving. *)
Theorem generateService_slots (file : FileDescriptorProto)
    (service : ServiceDescriptorProto) (index : Z) :
  let servName := CamelCase (GetName service) in
  let fullServName :=
    if bool_decide (GetPackage file <> EmptyString)
    then GetPackage file +:+ "." +:+ GetName service
    else GetName service in
  let serviceDescVar := "_" +:+ servName +:+ "_serviceDesc" in
  let methods := Method service in
  Z.of_nat (length methods) <= maxInt ->
  exists exprs : list string,
    length exprs = length methods /\
    (forall body s,
       generateServiceWith body file service index s =
         forPairs (body servName fullServName serviceDescVar)
                  (zip methods exprs)
                  (extend s (serviceHeaderText (kettyPkg s) servName) [] [])) /\
    (forall s,
       generateService file service index s =
         forPairs (generateClientMethod servName fullServName serviceDescVar)
                  (zip methods exprs)
                  (extend s (serviceHeaderText (kettyPkg s) servName) [] [])) /\
    (forall k method, methods !! k = Some method ->
       let i := length (unary (take k methods)) in
       let j := length (streaming (take k methods)) in
       exprs !! k =
         Some (if isUnary method
               then "&_" +:+ servName +:+ "_serviceDesc.Methods["
                      +:+ itoa (Z.of_nat i) +:+ "]"
               else "&_" +:+ servName +:+ "_serviceDesc.Streams["
                      +:+ itoa (Z.of_nat j) +:+ "]") /\
       (if isUnary method then (i < length (unary methods))%nat
        else (j < length (streaming methods))%nat)) /\
    List.map snd (List.filter (fun p => isUnary (fst p)) (zip methods exprs)) =
      List.map (fun i => "&_" +:+ servName +:+ "_serviceDesc.Methods["
                           +:+ itoa (Z.of_nat i) +:+ "]")
               (seq 0 (length (unary methods))) /\
    List.map snd (List.filter (fun p => negb (isUnary (fst p)))
                    (zip methods exprs)) =
      List.map (fun j => "&_" +:+ servName +:+ "_serviceDesc.Streams["
                           +:+ itoa (Z.of_nat j) +:+ "]")
               (seq 0 (length (streaming methods))).
Proof.
  intros servName fullServName v methods Hlen.
  exists (descExprs v methods 0 0).
  split; [| split; [| split; [| split; [| split]]]].
  - apply descExprs_length.
  - intros body s. apply generateServiceWith_forPairs.
  - intros s. apply (generateServiceWith_forPairs generateClientMethod).
  - intros k method Hk. split.
    + rewrite (descExprs_lookup v methods 0 0 k method) by (done || lia).
      unfold methodSlot, streamSlot, v. rewrite !append_assoc, !Z.add_0_l.
      reflexivity.
    + destruct (isUnary method) eqn:Hu.
      * by apply (filter_take_lt isUnary methods k method).
      * apply (filter_take_lt (fun m => negb (isUnary m)) methods k method);
          [done | by rewrite Hu].
  - rewrite unary_slots by lia.
    apply List.map_ext. intros i.
    unfold methodSlot, v. rewrite !append_assoc. reflexivity.
  - rewrite streaming_slots by lia.
    apply List.map_ext. intros j.
    unfold streamSlot, v. rewrite !append_assoc. reflexivity.
Qed.

End ServiceSlots.

(** ** Determinism *)

Lemma uniform_ret {A : Type} (a : A) : uniform (mret a).
Proof.
  intros c k. right. exists a, [], [], []. intros s _ _.
  apply (emits_ret a s).
Qed.

Lemma uniform_bind {A B : Type} (m : M A) (f : A -> M B) :
  uniform m -> (forall a, uniform (f a)) -> uniform (m ≫= f).
Proof.
  intros Hm Hf c k.
  destruct (Hm c k) as [[p Hp] | (a & o & u & e & Ha)].
  - left. exists p. intros s Hc Hk. by apply bind_panic, Hp.
  - destruct (Hf a c k) as [[p Hp] | (b & o' & u' & e' & Hb)].
    + left. exists p. intros s Hc Hk.
      rewrite (bind_run _ _ _ _ _ (Ha s Hc Hk)). by apply Hp.
    + right. exists b, (o ++ o'), (u ++ u'), (e ++ e'). intros s Hc Hk.
      rewrite (bind_run _ _ _ _ _ (Ha s Hc Hk)), Hb by done.
      by rewrite extend_extend.
Qed.

Lemma uniform_P (args : list arg) : uniform (P args).
Proof.
  intros c k. destruct (printArgs args) as [line | p] eqn:Hargs.
  - right. exists tt, [line], [], []. intros s _ _. by apply P_run.
  - left. exists p. intros s _ _. unfold P. by rewrite Hargs.
Qed.

Lemma uniform_println (msg : string) : uniform (println msg).
Proof.
  intros c k. right. exists tt, [], [], [msg]. intros s _ _.
  apply emits_println.
Qed.

Lemma uniform_gets_contextPkg : uniform (gets contextPkg).
Proof.
  intros c k. right. exists c, [], [], []. intros s <- _.
  apply (emits_gets contextPkg s).
Qed.

Lemma uniform_gets_kettyPkg : uniform (gets kettyPkg).
Proof.
  intros c k. right. exists k, [], [], []. intros s _ <-.
  apply (emits_gets kettyPkg s).
Qed.

Lemma uniform_lift {A : Type} (r : result A) : uniform (lift r).
Proof.
  intros c k. destruct r as [a | p].
  - right. exists a, [], [], []. intros s _ _. apply (emits_ret a s).
  - left. by exists p.
Qed.

Lemma uniform_when (b : bool) (m : M unit) : uniform m -> uniform (when b m).
Proof. destruct b; [done |]. intros _. apply uniform_ret. Qed.

(** A uniform computation that is run again from the state it returned
    adds the text it added the first time. *)
Lemma uniform_again {A : Type} (m : M A) (s s1 : state) (a : A) :
  uniform m -> m s = Ok (a, s1) ->
  exists o u e,
    s1 = extend s o u e /\
    forall t, contextPkg t = contextPkg s -> kettyPkg t = kettyPkg s ->
              m t = Ok (a, extend t o u e).
Proof.
  intros Hm Hs.
  destruct (Hm (contextPkg s) (kettyPkg s)) as [[p Hp] | (b & o & u & e & Hb)].
  - rewrite Hp in Hs by done. discriminate.
  - rewrite Hb in Hs by done. injection Hs as -> <-.
    by exists o, u, e.
Qed.

(** A uniform computation that panics from one state panics from every
    state with the same package names. *)
Lemma uniform_panic {A : Type} (m : M A) (s : state) (p : panic) :
  uniform m -> m s = Panic p ->
  forall t, contextPkg t = contextPkg s -> kettyPkg t = kettyPkg s ->
            m t = Panic p.
Proof.
  intros Hm Hs t Hc Hk.
  destruct (Hm (contextPkg s) (kettyPkg s)) as [[q Hq] | (b & o & u & e & Hb)].
  - rewrite Hq in Hs by done. injection Hs as <-. by apply Hq.
  - rewrite Hb in Hs by done. discriminate.
Qed.

Section Determinism.

Context `{External}.

Lemma uniform_typeName (str : string) : uniform (typeName str).
Proof.
  intros c k. right. exists (TypeName (ObjectNamed str)), [], [str], [].
  intros s _ _. apply typeName_run.
Qed.

(** Splits a sequence into its calls and closes the calls to the
    primitives. *)
Ltac uniform_step :=
  lazymatch goal with
  | |- uniform (mbind _ _) => apply uniform_bind; [| intros ?]
  | |- uniform (mret _) => apply uniform_ret
  | |- uniform (P _) => apply uniform_P
  | |- uniform (println _) => apply uniform_println
  | |- uniform (gets contextPkg) => apply uniform_gets_contextPkg
  | |- uniform (gets kettyPkg) => apply uniform_gets_kettyPkg
  | |- uniform (lift _) => apply uniform_lift
  | |- uniform (typeName _) => apply uniform_typeName
  | |- uniform (when _ _) => apply uniform_when
  end.

Lemma uniform_generateClientSignature (servName : string)
    (method : MethodDescriptorProto) :
  uniform (generateClientSignature servName method).
Proof. unfold generateClientSignature. repeat uniform_step. Qed.

Lemma uniform_generateClientMethod (servName fullServName serviceDescVar : string)
    (method : MethodDescriptorProto) (descExpr : string) :
  uniform (generateClientMethod servName fullServName serviceDescVar
                                method descExpr).
Proof.
  unfold generateClientMethod.
  apply uniform_bind; [apply uniform_typeName | intros outType].
  apply uniform_bind; [apply uniform_generateClientSignature | intros sig].
  repeat uniform_step.
Qed.

Lemma uniform_rangeMethods (body : MethodDescriptorProto -> string -> M unit)
    (v : string) (methods : list MethodDescriptorProto) :
  (forall method descExpr, uniform (body method descExpr)) ->
  forall mi si, uniform (rangeMethods body v methods mi si).
Proof.
  intros Hbody.
  induction methods as [|method rest IH]; intros mi si; simpl.
  - apply uniform_ret.
  - destruct (nextDescExpr v method mi si) as [[descExpr mi'] si'].
    apply uniform_bind; [apply Hbody | intros _; apply IH].
Qed.

Lemma uniform_generateService (file : FileDescriptorProto)
    (service : ServiceDescriptorProto) (index : Z) :
  uniform (generateService file service index).
Proof.
  unfold generateService, generateServiceWith. repeat uniform_step.
  apply uniform_rangeMethods. intros method descExpr.
  apply uniform_generateClientMethod.
Qed.

Lemma uniform_generateServices (file : FileDescriptorProto)
    (services : list ServiceDescriptorProto) :
  forall i, uniform (generateServices file services i).
Proof.
  induction services as [|service rest IH]; intros i; simpl.
  - apply uniform_ret.
  - apply uniform_bind; [apply uniform_generateService | intros _; apply IH].
Qed.

Lemma uniform_generateOptionMethods (message : DescriptorProto)
    (opts : kettyOptions) :
  uniform (generateOptionMethods message opts).
Proof. unfold generateOptionMethods. repeat uniform_step. Qed.

Lemma uniform_generateMessages (messages : list DescriptorProto) :
  uniform (generateMessages messages).
Proof.
  induction messages as [|message rest IH]; simpl.
  - apply uniform_ret.
  - destruct (Options message); [| done].
    apply uniform_bind; [apply uniform_lift | intros opts].
    apply uniform_bind; [apply uniform_generateOptionMethods | done].
Qed.

Lemma uniform_Generate (file : FileDescriptorProto) : uniform (Generate file).
Proof.
  unfold Generate.
  destruct (length (Service file) =? 0)%nat; [apply uniform_ret |].
  repeat uniform_step.
  - apply uniform_generateServices.
  - apply uniform_generateMessages.
Qed.

(** C7: what Generate does on a file depends on the file and on the two
    package names only. When it returns, running it again over the same
    file, from the state it returned or from any state with the same
    package names, returns as well and adds the same lines to the output as
    the first run did; when it panics, it panics alike from any such state.
    And the method name at the head of a client signature is CamelCase of
    the name of the method, whatever the state, the service and the
    streaming flags are. *)
Theorem Generate_deterministic (file : FileDescriptorProto) (s s1 : state) :
  (Generate file s = Ok (tt, s1) ->
   exists text,
     output s1 = output s ++ text /\
     (exists s2, Generate file s1 = Ok (tt, s2) /\
                 output s2 = output s1 ++ text) /\
     (forall t, contextPkg t = contextPkg s -> kettyPkg t = kettyPkg s ->
        exists t1, Generate file t = Ok (tt, t1) /\
                   output t1 = output t ++ text)) /\
  (forall p, Generate file s = Panic p ->
     forall t, contextPkg t = contextPkg s -> kettyPkg t = kettyPkg s ->
       Generate file t = Panic p) /\
  (forall servName method t,
     exists rest t1,
       generateClientSignature servName method t =
         Ok (CamelCase (GetName method) +:+ "(ctx " +:+ rest, t1)).
Proof.
  repeat split.
  - intros Hs.
    destruct (uniform_again _ _ _ _ (uniform_Generate file) Hs)
      as (o & u & e & -> & Hany).
    exists o. repeat split.
    + exists (extend (extend s o u e) o u e). split; [| done].
      by apply Hany.
    + intros t Hc Hk. exists (extend t o u e). split; [| done].
      by apply Hany.
  - intros p Hp. by apply (uniform_panic _ _ _ (uniform_Generate file)).
  - intros servName method t. do 2 eexists.
    rewrite generateClientSignature_run. unfold signatureText.
    reflexivity.
Qed.

End Determinism.

(** * Further properties of the pass *)

Lemma lift_run {A : Type} (a : A) (s : state) : lift (Ok a) s = Ok (a, s).
Proof. reflexivity. Qed.

Lemma answersBool_dec (r : iface * option error) :
  answersBool r \/ ~ answersBool r.
Proof. destruct r as [[| | |] [|]]; simpl; tauto. Qed.

Lemma answersString_dec (r : iface * option error) :
  answersString r \/ ~ answersString r.
Proof. destruct r as [[| | |] [|]]; simpl; tauto. Qed.

Section Resolution.

Context `{External}.

(** ** When the resolver panics *)

Lemma answers_dec (o : MessageOptions) : answers o \/ ~ answers o.
Proof.
  unfold answers.
  destruct (answersBool_dec (stored o E_UseKettyHttpExtend)),
    (answersString_dec (stored o E_Transport)),
    (answersString_dec (stored o E_Marshal)); tauto.
Qed.

Lemma getKettyOptions_resolved (message : DescriptorProto) (o : MessageOptions) :
  Options message = Some o -> answers o ->
  getKettyOptions message = Ok (resolved o).
Proof.
  intros Ho (Hb & Ht & Hm). unfold getKettyOptions, GetExtension, resolved.
  rewrite Ho.
  destruct (stored o E_UseKettyHttpExtend) as [[|[b|]|[x|]|x] [e|]];
    simpl in Hb; try contradiction;
  destruct (stored o E_Transport) as [[|[b'|]|[t|]|t] [e'|]];
    simpl in Ht; try contradiction;
  destruct (stored o E_Marshal) as [[|[b''|]|[m|]|m] [e''|]];
    simpl in Hm; try contradiction; reflexivity.
Qed.

Lemma getKettyOptions_unanswered (message : DescriptorProto) (o : MessageOptions) :
  Options message = Some o -> ~ answers o ->
  getKettyOptions message = Panic InterfaceConversion.
Proof.
  intros Ho Hn. unfold getKettyOptions, GetExtension. rewrite Ho.
  unfold answers in Hn. revert Hn.
  destruct (stored o E_UseKettyHttpExtend) as [[|[b|]|[x|]|x] [e|]];
    try (intros _; reflexivity);
  destruct (stored o E_Transport) as [[|[b'|]|[t|]|t] [e'|]];
    try (intros _; reflexivity);
  destruct (stored o E_Marshal) as [[|[b''|]|[m|]|m] [e''|]];
    try (intros _; reflexivity);
  simpl; intros Hn; exfalso; apply Hn; repeat split.
Qed.

(** X1: on a message with an option set, getKettyOptions panics exactly
    when one of the three fetches hands back, without an error, a value
    that is not a pointer of the asserted type; the panic is then the one
    of the type assertion: the nil check before each dereference keeps a
    nil pointer from being dereferenced. *)
Theorem getKettyOptions_panics_iff (message : DescriptorProto)
    (o : MessageOptions) :
  Options message = Some o ->
  (forall p, getKettyOptions message = Panic p -> p = InterfaceConversion) /\
  ((exists p, getKettyOptions message = Panic p) <-> ~ answers o).
Proof.
  intros Ho. destruct (answers_dec o) as [Ha | Hn].
  - rewrite (getKettyOptions_resolved message o Ho Ha). repeat split.
    + intros p Hp. discriminate.
    + intros [p Hp]. discriminate.
    + intros Hn. contradiction.
  - rewrite (getKettyOptions_unanswered message o Ho Hn). repeat split.
    + by intros p [= <-].
    + done.
    + intros _. by eexists.
Qed.

(** ** Messages that ask for nothing *)

Lemma generateOptionMethods_zero (message : DescriptorProto)
    (opts : kettyOptions) (s : state) :
  isUseKettyHttpExtend opts = false -> marshal opts = EmptyString ->
  transport opts = EmptyString ->
  generateOptionMethods message opts s = Ok (tt, s).
Proof.
  intros Hb Hm Ht. unfold generateOptionMethods.
  rewrite Hb, Hm, Ht. reflexivity.
Qed.

(** X2: the loop of Generate over the messages writes nothing and does not
    panic when every message has no option set, or has one whose three
    fetches answer and resolve to the zero values (an error, a nil pointer,
    false or the empty string); such a message need not even be named. *)
Theorem generateMessages_silent (messages : list DescriptorProto) (s : state) :
  Forall silent messages ->
  generateMessages messages s = Ok (tt, s).
Proof.
  induction 1 as [|message rest Hm _ IH]; [done |].
  simpl. unfold silent in Hm.
  destruct (Options message) as [o|] eqn:Ho; [| done].
  destruct Hm as (Ha & Hb & Ht & Hmar).
  rewrite (bind_run _ _ s s (resolved o)).
  - rewrite (bind_run _ _ s s tt); [done |].
    by apply generateOptionMethods_zero.
  - by rewrite (getKettyOptions_resolved message o Ho Ha).
Qed.

End Resolution.

Section WholePass.

Context `{External}.

(** ** The text of a service *)

Lemma rangeMethods_text (servName fullServName serviceDescVar v : string)
    (methods : list MethodDescriptorProto) :
  forall (mi si : Z) (s : state),
    rangeMethods (generateClientMethod servName fullServName serviceDescVar)
                 v methods mi si s =
      Ok (tt, extend s
                (flat_map (clientMethodText (contextPkg s) servName) methods)
                (flat_map methodUses methods) []).
Proof.
  induction methods as [|method rest IH]; intros mi si s.
  - simpl. by rewrite extend_nil.
  - simpl rangeMethods.
    destruct (nextDescExpr v method mi si) as [[descExpr mi'] si'].
    rewrite (bind_run _ _ _ _ _ (generateClientMethod_run _ _ _ _ _ _)).
    rewrite IH, extend_extend. reflexivity.
Qed.

Lemma generateService_run (file : FileDescriptorProto)
    (service : ServiceDescriptorProto) (index : Z) (s : state) :
  generateService file service index s =
    Ok (tt, extend s (serviceText (contextPkg s) (kettyPkg s) service)
                     (serviceUses service) []).
Proof.
  unfold generateService, generateServiceWith. do 23 run_head.
  rewrite rangeMethods_text, extend_extend.
  unfold serviceText, serviceHeaderText, serviceUses.
  cbn [app extend contextPkg kettyPkg].
  rewrite ?append_empty_r, !append_assoc. reflexivity.
Qed.

Lemma clientMethodText_length (c servName : string)
    (methods : list MethodDescriptorProto) :
  length (flat_map (clientMethodText c servName) methods) =
    (7 * length methods)%nat.
Proof.
  induction methods as [|method rest IH]; [done |].
  change (flat_map (clientMethodText c servName) (method :: rest))
    with (clientMethodText c servName method
            ++ flat_map (clientMethodText c servName) rest).
  rewrite length_app, IH. simpl. lia.
Qed.

(** X3: generateService never panics. For any service it writes the 22
    lines of the handle type, the handle, the client type and its
    constructor, then 7 lines for each method in declaration order, and
    records for each method its output type, its input type and its output
    type again as used, whatever the streaming flags are; what it writes
    depends on neither the file (its package) nor the index of the
    service. *)
Theorem generateService_text (file file' : FileDescriptorProto)
    (service : ServiceDescriptorProto) (index index' : Z) (s : state) :
  generateService file service index s =
    Ok (tt, extend s
              (serviceHeaderText (kettyPkg s) (CamelCase (GetName service))
                 ++ flat_map (clientMethodText (contextPkg s)
                                               (CamelCase (GetName service)))
                             (Method service))
              (flat_map methodUses (Method service)) []) /\
  generateService file' service index' s = generateService file service index s /\
  length (serviceText (contextPkg s) (kettyPkg s) service) =
    (22 + 7 * length (Method service))%nat.
Proof.
  split; [| split].
  - apply generateService_run.
  - by rewrite !generateService_run.
  - unfold serviceText. rewrite length_app, clientMethodText_length.
    reflexivity.
Qed.

Lemma generateServices_run (file : FileDescriptorProto)
    (services : list ServiceDescriptorProto) :
  forall (i : Z) (s : state),
    generateServices file services i s =
      Ok (tt, extend s
                (flat_map (serviceText (contextPkg s) (kettyPkg s)) services)
                (flat_map serviceUses services) []).
Proof.
  induction services as [|service rest IH]; intros i s.
  - simpl. by rewrite extend_nil.
  - simpl generateServices.
    rewrite (bind_run _ _ _ _ _ (generateService_run _ _ _ _)).
    rewrite IH, extend_extend. reflexivity.
Qed.

(** ** The text of the messages *)

Lemma generateOptionMethods_run (message : DescriptorProto) (n : string)
    (opts : kettyOptions) (s : state) :
  Name message = Some n ->
  generateOptionMethods message opts s =
    Ok (tt, extend s (optionMethodsText n opts) [] []).
Proof.
  intros Hn. unfold generateOptionMethods, optionMethodsText. rewrite Hn.
  destruct opts as [b t m], s as [o u e c k]; simpl.
  destruct b, (bool_decide (m <> EmptyString)),
    (bool_decide (t <> EmptyString)); run_M; reflexivity.
Qed.

Lemma generateMessages_run (messages : list DescriptorProto) :
  Forall resolvable messages ->
  forall s,
    generateMessages messages s =
      Ok (tt, extend s (flat_map messageText messages) [] []).
Proof.
  induction 1 as [|message rest Hm _ IH]; intros s.
  - simpl. by rewrite extend_nil.
  - simpl generateMessages. simpl flat_map.
    unfold resolvable in Hm. unfold messageText at 1.
    destruct (Options message) as [o|] eqn:Ho.
    + destruct Hm as [Ha [n Hn]]. rewrite Hn.
      rewrite (bind_run _ _ s s (resolved o))
        by (by rewrite (getKettyOptions_resolved message o Ho Ha)).
      rewrite (bind_run _ _ _ _ _ (generateOptionMethods_run _ n _ _ Hn)).
      rewrite IH, extend_extend. reflexivity.
    + apply IH.
Qed.

Lemma generateMessages_panics (pre post : list DescriptorProto)
    (message : DescriptorProto) (o : MessageOptions) :
  Forall resolvable pre ->
  Options message = Some o -> ~ answers o ->
  forall s,
    generateMessages (pre ++ message :: post) s = Panic InterfaceConversion.
Proof.
  intros Hpre Ho Hn.
  induction Hpre as [|message0 rest Hm _ IH]; intros s.
  - simpl. rewrite Ho. apply bind_panic.
    by rewrite (getKettyOptions_unanswered message o Ho Hn).
  - simpl. unfold resolvable in Hm.
    destruct (Options message0) as [o0|] eqn:Ho0; [| apply IH].
    destruct Hm as [Ha [n Hn0]].
    rewrite (bind_run _ _ s s (resolved o0))
      by (by rewrite (getKettyOptions_resolved message0 o0 Ho0 Ha)).
    rewrite (bind_run _ _ _ _ _ (generateOptionMethods_run _ n _ _ Hn0)).
    apply IH.
Qed.

(** ** The whole pass *)

(** On a file with a service, Generate is the loop over the messages, run
    from the state the preamble and the services leave. *)
Lemma Generate_split (file : FileDescriptorProto) (s : state) :
  Service file <> [] ->
  Generate file s =
    generateMessages (MessageType file)
      (extend s
         (preambleText (kettyPkg s)
            ++ flat_map (serviceText (contextPkg s) (kettyPkg s)) (Service file))
         (flat_map serviceUses (Service file))
         ["ketty.Generate"]).
Proof.
  intros Hs. unfold Generate.
  destruct (length (Service file) =? 0)%nat eqn:Hlen.
  { apply Nat.eqb_eq, nil_length_inv in Hlen. contradiction. }
  do 8 run_head.
  rewrite (bind_run _ _ _ _ _ (generateServices_run _ _ _ _)).
  rewrite extend_extend. unfold preambleText.
  cbn [app extend contextPkg kettyPkg].
  rewrite ?append_empty_r. reflexivity.
Qed.

(** X6: on a file that declares a service and whose messages are all
    resolvable, Generate does not panic; it prints ketty.Generate once to
    the standard error and writes the preamble, then the text of each
    service in declaration order, then for each message with an option set,
    in declaration order, the methods of its resolved options. *)
Theorem Generate_text (file : FileDescriptorProto) (s : state) :
  Service file <> [] ->
  Forall resolvable (MessageType file) ->
  Generate file s =
    Ok (tt, extend s
              (preambleText (kettyPkg s)
                 ++ flat_map (serviceText (contextPkg s) (kettyPkg s))
                             (Service file)
                 ++ flat_map messageText (MessageType file))
              (flat_map serviceUses (Service file))
              ["ketty.Generate"]).
Proof.
  intros Hs Hm. rewrite (Generate_split file s Hs).
  rewrite (generateMessages_run _ Hm), extend_extend.
  by rewrite !app_nil_r, <- app_assoc.
Qed.

(** X7: on a file that declares a service, when a message has an option
    set one of whose fetches hands back, without an error, a value of
    another type than the asserted one, and the messages declared before it
    are resolvable, Generate panics with the panic of the type assertion:
    the whole pass is lost, the text of the services included. *)
Theorem Generate_panics_on_mistyped (file : FileDescriptorProto)
    (pre post : list DescriptorProto) (message : DescriptorProto)
    (o : MessageOptions) (s : state) :
  Service file <> [] ->
  MessageType file = pre ++ message :: post ->
  Forall resolvable pre ->
  Options message = Some o -> ~ answers o ->
  Generate file s = Panic InterfaceConversion.
Proof.
  intros Hs Hmsgs Hpre Ho Hn. rewrite (Generate_split file s Hs), Hmsgs.
  by apply (generateMessages_panics pre post message o).
Qed.

Lemma uniform_GenerateImports (file : FileDescriptorProto) :
  uniform (GenerateImports file).
Proof.
  unfold GenerateImports.
  destruct (length (Service file) =? 0)%nat; [apply uniform_ret |].
  apply uniform_bind; [apply uniform_P | intros _].
  apply uniform_bind; [apply uniform_gets_kettyPkg | intros k].
  apply uniform_bind; [apply uniform_P | intros _].
  apply uniform_bind; [apply uniform_P | intros _].
  apply uniform_P.
Qed.

(** X5: when Generate or GenerateImports returns, the two package names
    are what they were, and the output, the recorded type uses and the
    standard error have only grown at the end: nothing written before is
    removed or changed. *)
Theorem Generate_frame (file : FileDescriptorProto) (s s1 : state) :
  Generate file s = Ok (tt, s1) \/ GenerateImports file s = Ok (tt, s1) ->
  contextPkg s1 = contextPkg s /\
  kettyPkg s1 = kettyPkg s /\
  output s `prefix_of` output s1 /\
  typeUses s `prefix_of` typeUses s1 /\
  stderr s `prefix_of` stderr s1.
Proof.
  intros [Hs | Hs].
  - destruct (uniform_again _ _ _ _ (uniform_Generate file) Hs)
      as (o & u & e & -> & _).
    repeat split; simpl; by apply prefix_app_r.
  - destruct (uniform_again _ _ _ _ (uniform_GenerateImports file) Hs)
      as (o & u & e & -> & _).
    repeat split; simpl; by apply prefix_app_r.
Qed.

End WholePass.

(** ** Distinct slots *)

From Stdlib Require DecimalPos DecimalZ.

Lemma length_append (a b : string) :
  String.length (a +:+ b) = (String.length a + String.length b)%nat.
Proof.
  induction a as [|x a IH]; [done |].
  change (S (String.length (a +:+ b)) = S (String.length a + String.length b)).
  by rewrite IH.
Qed.

Lemma append_inj_l (a b c : string) : a +:+ b = a +:+ c -> b = c.
Proof.
  induction a as [|x a IH]; [done |].
  change (String x (a +:+ b) = String x (a +:+ c) -> b = c).
  intros [= Heq]. by apply IH.
Qed.

Lemma append_inj_r (a b c : string) : a +:+ c = b +:+ c -> a = b.
Proof.
  revert b. induction a as [|x a IH]; intros [|y b] Heq; [done | | |].
  - apply (f_equal String.length) in Heq.
    rewrite !length_append in Heq. simpl in Heq. lia.
  - apply (f_equal String.length) in Heq.
    rewrite !length_append in Heq. simpl in Heq. lia.
  - change (String x (a +:+ c) = String y (b +:+ c)) in Heq.
    injection Heq as -> Heq. f_equal. by apply IH.
Qed.

Lemma itoa_inj (i j : Z) : itoa i = itoa j -> i = j.
Proof.
  assert (Hparse : forall z,
            NilZero.int_of_string (itoa z) = Some (Z.to_int z)).
  { intros z. apply NilZero.isi; destruct z; simpl; try discriminate;
      intros [= Hnil]; by apply DecimalPos.Unsigned.to_uint_nonnil in Hnil. }
  intros Heq. apply (f_equal NilZero.int_of_string) in Heq.
  rewrite !Hparse in Heq. injection Heq as Heq.
  apply (f_equal Z.of_int) in Heq. by rewrite !DecimalZ.of_to in Heq.
Qed.

Section Distinct.

Context `{External}.

Lemma methodSlot_inj (v : string) (i j : Z) :
  methodSlot v i = methodSlot v j -> i = j.
Proof.
  unfold methodSlot. intros Heq.
  do 3 apply append_inj_l in Heq. by apply append_inj_r, itoa_inj in Heq.
Qed.

Lemma streamSlot_inj (v : string) (i j : Z) :
  streamSlot v i = streamSlot v j -> i = j.
Proof.
  unfold streamSlot. intros Heq.
  do 3 apply append_inj_l in Heq. by apply append_inj_r, itoa_inj in Heq.
Qed.

Lemma methodSlot_streamSlot (v : string) (i j : Z) :
  methodSlot v i <> streamSlot v j.
Proof.
  unfold methodSlot, streamSlot. intros Heq.
  do 2 apply append_inj_l in Heq. discriminate.
Qed.

Lemma filter_take_mono {A : Type} (p : A -> bool) (l : list A) (i j : nat)
    (x : A) :
  l !! i = Some x -> p x = true -> (i < j)%nat ->
  (length (List.filter p (take i l)) < length (List.filter p (take j l)))%nat.
Proof.
  intros Hi Hp Hij.
  replace (take i l) with (take i (take j l))
    by (rewrite take_take; f_equal; lia).
  apply (filter_take_lt p (take j l) i x); [| done].
  by rewrite lookup_take_lt.
Qed.

(** X4: the descriptor expressions generateService hands to its callee
    for the methods of a service (of at most maxInt methods), one for each
    method, are pairwise distinct: no two methods of a service share a
    slot. *)
Theorem generateService_slots_distinct (file : FileDescriptorProto)
    (service : ServiceDescriptorProto) (index : Z) :
  Z.of_nat (length (Method service)) <= maxInt ->
  exists exprs : list string,
    length exprs = length (Method service) /\
    (forall body s,
       generateServiceWith body file service index s =
         forPairs
           (body (CamelCase (GetName service))
                 (if bool_decide (GetPackage file <> EmptyString)
                  then GetPackage file +:+ "." +:+ GetName service
                  else GetName service)
                 ("_" +:+ CamelCase (GetName service) +:+ "_serviceDesc"))
           (zip (Method service) exprs)
           (extend s (serviceHeaderText (kettyPkg s)
                                        (CamelCase (GetName service))) [] [])) /\
    NoDup exprs.
Proof.
  intros Hlen.
  exists (descExprs ("_" +:+ CamelCase (GetName service) +:+ "_serviceDesc")
                    (Method service) 0 0).
  split; [apply descExprs_length |].
  split; [intros body s; apply generateServiceWith_forPairs |].
  set (v := "_" +:+ CamelCase (GetName service) +:+ "_serviceDesc").
  set (methods := Method service) in *.
  assert (Hlt : forall i j x,
            (i < j)%nat ->
            descExprs v methods 0 0 !! i = Some x ->
            descExprs v methods 0 0 !! j = Some x -> False).
  { intros i j x Hij Hi Hj.
    destruct (lookup_lt_is_Some_2 methods i) as [mi Hmi].
    { rewrite <- (descExprs_length v methods 0 0). by eapply lookup_lt_Some. }
    destruct (lookup_lt_is_Some_2 methods j) as [mj Hmj].
    { rewrite <- (descExprs_length v methods 0 0). by eapply lookup_lt_Some. }
    rewrite (descExprs_lookup v methods 0 0 i mi) in Hi by (done || lia).
    rewrite (descExprs_lookup v methods 0 0 j mj) in Hj by (done || lia).
    rewrite <- Hj in Hi. injection Hi as Hi.
    destruct (isUnary mi) eqn:Hui, (isUnary mj) eqn:Huj.
    - apply methodSlot_inj in Hi.
      pose proof (filter_take_mono isUnary methods i j mi Hmi Hui Hij).
      unfold unary in Hi. lia.
    - by apply methodSlot_streamSlot in Hi.
    - symmetry in Hi. by apply methodSlot_streamSlot in Hi.
    - apply streamSlot_inj in Hi.
      assert (Hn : negb (isUnary mi) = true) by by rewrite Hui.
      pose proof (filter_take_mono (fun m => negb (isUnary m))
                    methods i j mi Hmi Hn Hij).
      unfold streaming in Hi. lia. }
  apply NoDup_alt. intros i j x Hi Hj.
  destruct (Nat.lt_trichotomy i j) as [Hij | [Hij | Hij]]; [| done |].
  - destruct (Hlt i j x Hij Hi Hj).
  - destruct (Hlt j i x Hij Hj Hi).
Qed.

End Distinct.

Section Initialisation.

Context `{External}.

(** ** Init and the passes after it *)

(** X8: Init does not panic and touches neither the output, the recorded
    type uses nor the standard error; it sets contextPkg to context and
    kettyPkg to the name the generator registered for ketty, and both
    names are still set so after any Generate or GenerateImports that
    returns. *)
Theorem Init_then_Generate (s0 : state) (file : FileDescriptorProto) :
  exists s,
    Init s0 = Ok (tt, s) /\
    output s = output s0 /\ typeUses s = typeUses s0 /\ stderr s = stderr s0 /\
    contextPkg s = "context" /\
    kettyPkg s = RegisterUniquePackageName "ketty" /\
    forall s1,
      Generate file s = Ok (tt, s1) \/ GenerateImports file s = Ok (tt, s1) ->
      contextPkg s1 = "context" /\
      kettyPkg s1 = RegisterUniquePackageName "ketty".
Proof.
  eexists. split; [reflexivity |]. do 5 (split; [reflexivity |]).
  intros s1 [Hs | Hs].
  - destruct (uniform_again _ _ _ _ (uniform_Generate file) Hs)
      as (o & u & e & -> & _). by split.
  - destruct (uniform_again _ _ _ _ (uniform_GenerateImports file) Hs)
      as (o & u & e & -> & _). by split.
Qed.

End Initialisation.

(** * The model at concrete descriptors

    The theorems above, applied to the example descriptors with the
    reference instance of the libraries. *)

Lemma generateService_slots_witness :
  generateServiceWith (fun _ _ _ _ descExpr => P [AString descExpr])
                      demo Chat 0 initialised =
    Ok (tt, extend initialised
              (serviceHeaderText "ketty" "Chat"
                 ++ ["&_Chat_serviceDesc.Methods[0]";
                     "&_Chat_serviceDesc.Streams[0]";
                     "&_Chat_serviceDesc.Methods[1]";
                     "&_Chat_serviceDesc.Streams[1]"]) [] []).
Proof.
  assert (Hlen : Z.of_nat (length (Method Chat)) <= maxInt)
    by (unfold maxInt; simpl; lia).
  destruct (generateService_slots demo Chat 0 Hlen)
    as (exprs & Hl & Hbody & _ & Hk & _).
  rewrite Hbody.
  destruct exprs as [|e0 [|e1 [|e2 [|e3 [|e4 rest]]]]]; try discriminate Hl.
  destruct (Hk 0%nat _ eq_refl) as [[= ->] _].
  destruct (Hk 1%nat _ eq_refl) as [[= ->] _].
  destruct (Hk 2%nat _ eq_refl) as [[= ->] _].
  destruct (Hk 3%nat _ eq_refl) as [[= ->] _].
  vm_compute. reflexivity.
Defined.

(** An option set that hands back a string for useKettyHttpExtend without
    an error, which a fetch by [fetched] never does: the type assertion of
    the resolver panics. *)
Lemma getKettyOptions_mistyped_panics :
  getKettyOptions Pong = Panic InterfaceConversion.
Proof. reflexivity. Qed.

Lemma getKettyOptions_answered_witness :
  getKettyOptions Ping = Ok httpOptions.
Proof.
  apply (getKettyOptions_answered Ping httpOnly);
    [reflexivity | exact I | exact I | exact I].
Defined.

Lemma getKettyOptions_total_witness :
  getKettyOptions Pang = Ok httpOptions.
Proof.
  destruct (getKettyOptions_total Pang mixed eq_refl) as (opts & Hrun & -> & _).
  exact Hrun.
Defined.

Lemma generateOptionMethods_emits_witness :
  generateOptionMethods Ping httpOptions state0 =
    Ok (tt, extend state0
      ["func (*Ping) KettyTransport() string {";
       "return " +:+ dq +:+ "http" +:+ dq;
       "}";
       EmptyString] [] []).
Proof.
  exact (proj1 (generateOptionMethods_emits Ping httpOptions state0)
           "Ping" eq_refl).
Defined.

Lemma generateClientSignature_params_witness :
  exists s',
    generateClientSignature "Chat" (rpc "Upload" true false) initialised =
      Ok ("Upload(ctx context.Context) (Chat_UploadClient, error)", s') /\
    generateClientSignature "Chat" (rpc "Send" false false) initialised =
      Ok ("Send(ctx context.Context, in *Msg) (*Msg, error)", s').
Proof.
  destruct (generateClientSignature_params "Chat" (rpc "Upload" true false)
              initialised eq_refl) as [s' Hs'].
  exists s'. split; [exact Hs' |].
  destruct (generateClientSignature_params "Chat" (rpc "Send" false false)
              initialised eq_refl) as [s'' Hs''].
  rewrite Hs''. rewrite generateClientSignature_run in Hs', Hs''.
  injection Hs' as <-. injection Hs'' as <-. reflexivity.
Defined.

Lemma generateService_Echo_witness :
  exists lines,
    generateService demo Echo 0 initialised =
      Ok (tt, extend initialised lines
                [".demo.EchoResponse"; ".demo.EchoRequest"; ".demo.EchoResponse"]
                []) /\
    "type EchoHandleT struct {" ∈ lines /\
    "var EchoHandle = &EchoHandleT{ desc : &_Echo_serviceDesc }" ∈ lines /\
    "type KettyEchoClient struct {" ∈ lines /\
    "func NewKettyEchoClient (client ketty.Client) *KettyEchoClient {" ∈ lines /\
    "func (this *KettyEchoClient) Say(ctx context.Context, in *EchoRequest) (*EchoResponse, error){"
      ∈ lines /\
    "err := this.client.Invoke(ctx, EchoHandle, " +:+ dq +:+ "Say" +:+ dq
      +:+ ", in, out)" ∈ lines.
Proof.
  eexists. split.
  - apply (generateService_Echo demo Echo Say 0 initialised); reflexivity.
  - repeat split; repeat constructor.
Defined.

Lemma Generate_deterministic_witness :
  exists text,
    output (exec (Generate demo) initialised) = output initialised ++ text /\
    (exists s2,
       Generate demo (exec (Generate demo) initialised) = Ok (tt, s2) /\
       output s2 = output (exec (Generate demo) initialised) ++ text) /\
    (forall t,
       contextPkg t = contextPkg initialised ->
       kettyPkg t = kettyPkg initialised ->
       exists t1, Generate demo t = Ok (tt, t1) /\ output t1 = output t ++ text).
Proof.
  apply (proj1 (Generate_deterministic demo initialised
                  (exec (Generate demo) initialised))).
  vm_compute. reflexivity.
Defined.

Lemma generateClientMethod_body_witness :
  generateClientMethod "Chat" "demo.chat" "_Chat_serviceDesc"
      (rpc "Upload" true false) "&_Chat_serviceDesc.Streams[1]" initialised =
    Ok (tt, extend initialised
      ["func (this *KettyChatClient) Upload(ctx context.Context) (Chat_UploadClient, error){";
       "out := new(Msg)";
       "err := this.client.Invoke(ctx, ChatHandle, " +:+ dq +:+ "Upload" +:+ dq
         +:+ ", in, out)";
       "if err != nil { return nil, err }";
       "return out, nil";
       "}";
       EmptyString]
      [".demo.Msg"; ".demo.Msg"; ".demo.Msg"] []).
Proof.
  destruct (generateClientMethod_body "Chat" "demo.chat" "_Chat_serviceDesc"
              (rpc "Upload" true false) "&_Chat_serviceDesc.Streams[1]"
              initialised) as (sig & Hrun & Hsig).
  rewrite Hrun, (Hsig eq_refl). reflexivity.
Defined.

Lemma Generate_no_service_witness :
  Generate messagesOnly initialised = Ok (tt, initialised) /\
  GenerateImports messagesOnly initialised = Ok (tt, initialised).
Proof. apply (Generate_no_service messagesOnly initialised). reflexivity. Defined.

(** [unexport] on an identifier, with the ASCII lower case of the reference
    instance. *)
Example unexport_EchoHandle : unexport "EchoHandle" = Ok "echoHandle".
Proof. reflexivity. Qed.

(** A file with a service and the message [Pong]: the pass panics in the
    resolver. *)
Example Generate_mistyped_panics :
  Generate {| Package := Some "demo"; Service := [Echo]; MessageType := [Pong] |}
           initialised = Panic InterfaceConversion.
Proof. vm_compute. reflexivity. Qed.

(** ** The further properties at concrete descriptors *)

Lemma getKettyOptions_panics_iff_witness :
  (forall p, getKettyOptions Pong = Panic p -> p = InterfaceConversion) /\
  ((exists p, getKettyOptions Pong = Panic p) <-> ~ answers mistyped).
Proof. exact (getKettyOptions_panics_iff Pong mistyped eq_refl). Defined.

Lemma generateMessages_silent_witness :
  generateMessages (MessageType demo ++ [anonymous]) state0 = Ok (tt, state0).
Proof.
  apply (generateMessages_silent (MessageType demo ++ [anonymous]) state0).
  simpl; repeat (apply List.Forall_cons; [first [exact I | repeat split] |]).
  apply List.Forall_nil.
Defined.

Lemma generateService_slots_distinct_witness :
  exists exprs : list string,
    length exprs = length (Method Chat) /\
    (forall body s,
       generateServiceWith body demo Chat 0 s =
         forPairs
           (body (CamelCase (GetName Chat))
                 (if bool_decide (GetPackage demo <> EmptyString)
                  then GetPackage demo +:+ "." +:+ GetName Chat
                  else GetName Chat)
                 ("_" +:+ CamelCase (GetName Chat) +:+ "_serviceDesc"))
           (zip (Method Chat) exprs)
           (extend s (serviceHeaderText (kettyPkg s)
                                        (CamelCase (GetName Chat))) [] [])) /\
    NoDup exprs.
Proof.
  assert (Hlen : Z.of_nat (length (Method Chat)) <= maxInt)
    by (unfold maxInt; simpl; lia).
  exact (generateService_slots_distinct demo Chat 0 Hlen).
Defined.

Lemma Generate_frame_witness :
  contextPkg (exec (Generate demo) initialised) = contextPkg initialised /\
  kettyPkg (exec (Generate demo) initialised) = kettyPkg initialised /\
  output initialised `prefix_of` output (exec (Generate demo) initialised) /\
  typeUses initialised `prefix_of` typeUses (exec (Generate demo) initialised) /\
  stderr initialised `prefix_of` stderr (exec (Generate demo) initialised).
Proof.
  apply (Generate_frame demo initialised (exec (Generate demo) initialised)).
  left. vm_compute. reflexivity.
Defined.

Lemma Generate_text_witness :
  Generate demoPing initialised =
    Ok (tt, extend initialised
              (preambleText (kettyPkg initialised)
                 ++ flat_map (serviceText (contextPkg initialised)
                                          (kettyPkg initialised))
                             (Service demoPing)
                 ++ flat_map messageText (MessageType demoPing))
              (flat_map serviceUses (Service demoPing))
              ["ketty.Generate"]) /\
  flat_map messageText (MessageType demoPing) =
    ["func (*Ping) KettyTransport() string {";
     "return " +:+ dq +:+ "http" +:+ dq;
     "}";
     EmptyString].
Proof.
  split; [| reflexivity].
  apply (Generate_text demoPing initialised); [discriminate |].
  simpl; repeat (apply List.Forall_cons;
          [first [exact I | repeat split; by eexists] |]).
  apply List.Forall_nil.
Defined.

Lemma Generate_panics_on_mistyped_witness :
  Generate demoPong initialised = Panic InterfaceConversion.
Proof.
  apply (Generate_panics_on_mistyped demoPong (MessageType demo ++ [Ping])
           [anonymous] Pong mistyped initialised).
  - discriminate.
  - reflexivity.
  - simpl; repeat (apply List.Forall_cons;
            [first [exact I | repeat split; by eexists] |]).
    apply List.Forall_nil.
  - reflexivity.
  - intros [Hb _]. exact Hb.
Defined.
